(** * geode::Interface: the scheduling facade in front of a Mod

    A shallow embedding of the [Interface] class of the loader header
    (namespace [geode]) and of the accessors defined next to it
    ([Mod::get<void>], [Log::get]).  Objects live in stores indexed by their
    address, member functions are computations in a state monad whose
    failure stands for undefined behaviour (dereferencing a null or dangling
    pointer). *)

From stdpp Require Import gmap strings list.
From Stdlib Require Import NArith.
From stdpp Require Import pretty.

Set Default Proof Using "Type*".

(** ** Values *)

(** A nullable pointer to an object (a Mod, a Hook, an Interface):
    [None] is [nullptr]. *)
Abbreviation pointer := (option positive).
Abbreviation nullptr := (@None positive).

(** [Result<T>] of utils/Result.hpp: a value or an error message. *)
Inductive Result (T : Type) : Type :=
| Ok (value : T)
| Err (error : string).
Arguments Ok {T} value.
Arguments Err {T} error.

(** The two type-erased function pointer types of Types.hpp, kept as the
    bits of the pointer they were cast from. *)
Inductive unknownmemfn_t : Type := unknownmemfn (bits : N).
Inductive unknownfn_t : Type := unknownfn (addr : N).

(** [loadfn_t], a pointer to a function taking a Mod pointer and returning
    nothing: the address of the callback. *)
Inductive loadfn_t : Type := loadfn (addr : N).

(** The argument [T ptr] of [exportAPIFunction]: either a pointer to a
    member function, or anything else [reinterpret_cast<unknownfn_t>]
    accepts. *)
Inductive api_ptr : Type :=
| member_function_pointer (bits : N)
| function_pointer (addr : N).

Definition is_member_function_pointer_v (ptr : api_ptr) : bool :=
  match ptr with member_function_pointer _ => true | function_pointer _ => false end.

(** ** Computations on a state that may be undefined

    [St S A] is a computation on a state of type [S] that returns an [A];
    [None] is undefined behaviour. *)
Definition St (S A : Type) : Type := S -> option (A * S).

Definition ret {S A} (a : A) : St S A := fun s => Some (a, s).

Definition bind {S A B} (c : St S A) (k : A -> St S B) : St S B :=
  fun s => match c s with
           | Some (a, s') => k a s'
           | None => None
           end.

Notation "x <- c ;; k" := (bind c (fun x => k))
  (at level 100, c at next level, right associativity).
Notation "c ;; k" := (bind c (fun _ => k))
  (at level 100, right associativity).

(** A range-based for loop whose body returns nothing. *)
Fixpoint for_each {S A} (l : list A) (body : A -> St S unit) : St S unit :=
  match l with
  | [] => ret tt
  | x :: l' => body x ;; for_each l' body
  end.

(** [n] calls in a row, with their results. *)
Fixpoint times {S A} (n : nat) (c : St S A) : St S (list A) :=
  match n with
  | 0 => ret []
  | S n' => x <- c ;; xs <- times n' c ;; ret (x :: xs)
  end.

(** ** What the header takes from Mod.hpp, Log.hpp and Types.hpp

    None of the three is part of the sources at hand, so the Mod class is
    an interface here: its state, and the member functions the facade
    calls.  [Detour] and [Convention] are the possible template arguments
    of [addHook].  [invoke_loadfn fn] is what calling the callback at [fn]
    with the pointer to a Mod does, taken to be confined to that Mod. *)
Class ModApi : Type := {
  Severity : Type;
  Detour : Type;
  Convention : Type;
  Mod : Type;
  Log : Type;
  Mod_addHook : Detour -> Convention -> string -> N -> Mod -> Result pointer * Mod;
  Mod_logInfo : string -> Severity -> Mod -> Mod;
  Mod_exportAPIFunction_memfn : string -> unknownmemfn_t -> Mod -> Mod;
  Mod_exportAPIFunction_fn : string -> unknownfn_t -> Mod -> Mod;
  Mod_log : Mod -> Log;
  invoke_loadfn : loadfn_t -> Mod -> Mod;
}.

Section Facade.
Context `{api : ModApi}.

(** ** The data members of Interface *)

(** The type of [m_addFunction], a pointer to a member function of Mod
    from a display name and an address to a Result of Hook pointer: the
    only values ever stored are [&Mod::addHook<Detour, Convention>], one
    for each pair of template arguments. *)
Inductive addFunction_t : Type :=
| Mod_addHook_ptr (detour : Detour) (convention : Convention).

Record ScheduledHook : Type := mkScheduledHook {
  m_displayName : string;
  m_address : N;
  m_addFunction : addFunction_t;
}.

Record ScheduledLog : Type := mkScheduledLog {
  m_info : string;
  m_severity : Severity;
}.

Record ScheduledExport : Type := mkScheduledExport {
  m_selector : string;
  m_func : unknownmemfn_t + unknownfn_t;
}.

Record Interface : Type := mkInterface {
  m_mod : pointer;
  m_scheduledHooks : list ScheduledHook;
  m_scheduledLogs : list ScheduledLog;
  m_scheduledExports : list ScheduledExport;
  m_scheduledFunctions : list loadfn_t;
}.

(** The default member initialisers: [m_mod = nullptr], empty vectors. *)
Definition Interface_new : Interface :=
  mkInterface nullptr [] [] [] [].

Definition set_mod (p : pointer) (i : Interface) : Interface :=
  mkInterface p (m_scheduledHooks i) (m_scheduledLogs i)
              (m_scheduledExports i) (m_scheduledFunctions i).

Definition push_back_hook (h : ScheduledHook) (i : Interface) : Interface :=
  mkInterface (m_mod i) (m_scheduledHooks i ++ [h]) (m_scheduledLogs i)
              (m_scheduledExports i) (m_scheduledFunctions i).

Definition push_back_log (l : ScheduledLog) (i : Interface) : Interface :=
  mkInterface (m_mod i) (m_scheduledHooks i) (m_scheduledLogs i ++ [l])
              (m_scheduledExports i) (m_scheduledFunctions i).

Definition push_back_export (e : ScheduledExport) (i : Interface) : Interface :=
  mkInterface (m_mod i) (m_scheduledHooks i) (m_scheduledLogs i)
              (m_scheduledExports i ++ [e]) (m_scheduledFunctions i).

Definition push_back_function (f : loadfn_t) (i : Interface) : Interface :=
  mkInterface (m_mod i) (m_scheduledHooks i) (m_scheduledLogs i)
              (m_scheduledExports i) (m_scheduledFunctions i ++ [f]).

Definition clear_buffers (i : Interface) : Interface :=
  mkInterface (m_mod i) [] [] [] [].

(** ** Member functions as state-passing computations

    A member function runs on the Interface it is called on ([self]) and
    on the store of Mod objects, none of which the Interface owns. *)
Record Env : Type := mkEnv {
  self : Interface;
  mods : gmap positive Mod;
}.

(** Reading and updating the members of [*this]. *)
Definition this : St Env Interface := fun w => Some (self w, w).

Definition assign (f : Interface -> Interface) : St Env unit :=
  fun w => Some (tt, mkEnv (f (self w)) (mods w)).

(** [p->method(...)]: undefined when [p] is null or dangling. *)
Definition arrow {A} (p : pointer) (method : Mod -> A * Mod) : St Env A :=
  fun w =>
    match p with
    | Some a =>
        match mods w !! a with
        | Some obj =>
            let '(r, obj') := method obj in
            Some (r, mkEnv (self w) (<[a := obj']> (mods w)))
        | None => None
        end
    | None => None
    end.

(** A void member function of Mod. *)
Definition void (f : Mod -> Mod) : Mod -> unit * Mod := fun obj => (tt, f obj).

(** [std::invoke(f, mod, displayName, address)] on a stored pointer to
    member. *)
Definition invoke_addFunction (f : addFunction_t) (p : pointer)
    (displayName : string) (address : N) : St Env (Result pointer) :=
  match f with
  | Mod_addHook_ptr d c => arrow p (Mod_addHook d c displayName address)
  end.

(** [Interface::addHook<Detour, Convention>(displayName, address)]. *)
Definition addHook (d : Detour) (c : Convention)
    (displayName : string) (address : N) : St Env (Result pointer) :=
  i <- this ;;
  match m_mod i with
  | Some _ =>
      arrow (m_mod i) (Mod_addHook d c displayName address)
  | None =>
      assign (push_back_hook
                (mkScheduledHook displayName address (Mod_addHook_ptr d c))) ;;
      ret (Ok nullptr)
  end.

(** [Interface::addHook<Detour, Convention>(address)]. *)
Definition addHook_address (d : Detour) (c : Convention) (address : N)
    : St Env (Result pointer) :=
  addHook d c EmptyString address.

(** Modelled from the spec: [Interface::logInfo], declared in the header
    and defined elsewhere.  "If attached, forwards immediately; else
    buffers as ScheduledLog." *)
Definition logInfo (info : string) (severity : Severity) : St Env unit :=
  i <- this ;;
  match m_mod i with
  | Some _ => arrow (m_mod i) (void (Mod_logInfo info severity))
  | None => assign (push_back_log (mkScheduledLog info severity))
  end.

(** Modelled from the spec: [Interface::scheduleOnLoad], declared in the
    header and defined elsewhere.  The callback "is guaranteed to run
    exactly once, after the Module becomes available": while no Mod is
    attached it is buffered; when a Mod is attached already, and no other
    attach is to come, it is invoked at once ("immediate-invoke-if-
    already-attached", the semantics the spec recommends), so that after
    the attach the buffers "stay empty (no re-entry into buffering
    mode)". *)
Definition scheduleOnLoad (fn : loadfn_t) : St Env unit :=
  i <- this ;;
  match m_mod i with
  | Some _ => arrow (m_mod i) (void (invoke_loadfn fn))
  | None => assign (push_back_function fn)
  end.

(** Modelled from the spec: the two overloads of
    [Interface::exportAPIFunctionInternal], declared in the header and
    defined elsewhere.  "Either forwards immediately (attached) or buffers
    as ScheduledExport (not attached)." *)
Definition exportAPIFunctionInternal_memfn (selector : string)
    (fn : unknownmemfn_t) : St Env unit :=
  i <- this ;;
  match m_mod i with
  | Some _ => arrow (m_mod i) (void (Mod_exportAPIFunction_memfn selector fn))
  | None => assign (push_back_export (mkScheduledExport selector (inl fn)))
  end.

Definition exportAPIFunctionInternal_fn (selector : string)
    (fn : unknownfn_t) : St Env unit :=
  i <- this ;;
  match m_mod i with
  | Some _ => arrow (m_mod i) (void (Mod_exportAPIFunction_fn selector fn))
  | None => assign (push_back_export (mkScheduledExport selector (inr fn)))
  end.

(** The two casts of [exportAPIFunction] keep the bits of the pointer. *)
Definition bits_of (ptr : api_ptr) : N :=
  match ptr with
  | member_function_pointer bits => bits
  | function_pointer addr => addr
  end.

Definition reference_cast_unknownmemfn (ptr : api_ptr) : unknownmemfn_t :=
  unknownmemfn (bits_of ptr).

Definition reinterpret_cast_unknownfn (ptr : api_ptr) : unknownfn_t :=
  unknownfn (bits_of ptr).

(** [Interface::exportAPIFunction<T>(selector, ptr)]: the [if constexpr]
    is decided by the type of [ptr]. *)
Definition exportAPIFunction (selector : string) (ptr : api_ptr) : St Env unit :=
  if is_member_function_pointer_v ptr then
    exportAPIFunctionInternal_memfn selector (reference_cast_unknownmemfn ptr)
  else
    exportAPIFunctionInternal_fn selector (reinterpret_cast_unknownfn ptr).

(** The body of each of the four replay loops of [init]. *)
Definition replay_hook (module : pointer) (h : ScheduledHook) : St Env unit :=
  invoke_addFunction (m_addFunction h) module
                     (m_displayName h) (m_address h) ;;
  ret tt.

Definition replay_log (module : pointer) (l : ScheduledLog) : St Env unit :=
  arrow module (void (Mod_logInfo (m_info l) (m_severity l))).

Definition replay_export (module : pointer) (e : ScheduledExport) : St Env unit :=
  match m_func e with
  | inl fn => arrow module (void (Mod_exportAPIFunction_memfn (m_selector e) fn))
  | inr fn => arrow module (void (Mod_exportAPIFunction_fn (m_selector e) fn))
  end.

Definition replay_function (module : pointer) (fn : loadfn_t) : St Env unit :=
  arrow module (void (invoke_loadfn fn)).

(** Modelled from the spec: [Interface::init], declared in the header and
    defined elsewhere.  "Attaches module as the Interface's Module
    reference, then, in order: (1) replays every ScheduledHook, calling
    the captured install operation with (displayName, address) against
    module, discarding the returned result; (2) replays every
    ScheduledLog; (3) replays every ScheduledExport; (4) invokes every
    ScheduledFunction with module.  After step 4, all four buffers are
    cleared." *)
Definition init (module : pointer) : St Env unit :=
  assign (set_mod module) ;;
  i <- this ;;
  for_each (m_scheduledHooks i) (replay_hook module) ;;
  for_each (m_scheduledLogs i) (replay_log module) ;;
  for_each (m_scheduledExports i) (replay_export module) ;;
  for_each (m_scheduledFunctions i) (replay_function module) ;;
  assign clear_buffers.

(** ** The process: the singleton and the static accessors *)

(** [get_ret] is the function-local static [ret] of [Interface::get],
    [None] until its initialiser has run. *)
Record Process : Type := mkProcess {
  get_ret : option pointer;
  interfaces : gmap positive Interface;
  modules : gmap positive Mod;
}.

(** Modelled from the spec: [Interface::create], declared in the header
    and defined elsewhere.  It constructs the process-wide instance, with
    its default member initialisers, and "must never return null". *)
Definition create : St Process pointer :=
  fun s =>
    let a := fresh (dom (interfaces s)) in
    Some (Some a,
          mkProcess (get_ret s) (<[a := Interface_new]> (interfaces s)) (modules s)).

Definition initialise_ret (r : pointer) : St Process unit :=
  fun s => Some (tt, mkProcess (Some r) (interfaces s) (modules s)).

(** [Interface::get()]: [static Interface* ret = create(); return ret;]. *)
Definition Interface_get : St Process pointer :=
  fun s =>
    match get_ret s with
    | Some r => ret r s
    | None => (r <- create ;; initialise_ret r ;; ret r) s
    end.

(** [p->member(...)] for a member function of Interface: undefined when
    [p] is null or dangling. *)
Definition on {A} (p : pointer) (member : St Env A) : St Process A :=
  fun s =>
    match p with
    | Some a =>
        match interfaces s !! a with
        | Some i =>
            match member (mkEnv i (modules s)) with
            | Some (r, w) =>
                Some (r, mkProcess (get_ret s) (<[a := self w]> (interfaces s)) (mods w))
            | None => None
            end
        | None => None
        end
    | None => None
    end.

(** [Interface::mod()]: [return Interface::get()->m_mod;]. *)
Definition Interface_mod : St Process pointer :=
  p <- Interface_get ;;
  on p (i <- this ;; ret (m_mod i)).

(** [Interface::log()]: [return Interface::get()->m_mod->log();]. *)
Definition Interface_log : St Process Log :=
  p <- Interface_get ;;
  on p (i <- this ;; arrow (m_mod i) (fun obj => (Mod_log obj, obj))).

(** [Mod::get<void>()]: [return Interface::get()->m_mod;]. *)
Definition Mod_get : St Process pointer :=
  p <- Interface_get ;;
  on p (i <- this ;; ret (m_mod i)).

(** [Log::get()]: [return Mod::get()->log();]. *)
Definition Log_get : St Process Log :=
  m <- Mod_get ;;
  fun s =>
    match m with
    | Some a =>
        match modules s !! a with
        | Some obj => Some (Mod_log obj, s)
        | None => None
        end
    | None => None
    end.

(** ** Sequences of calls on the facade *)

Inductive Call : Type :=
| call_addHook (d : Detour) (c : Convention) (displayName : string) (address : N)
| call_addHook_address (d : Detour) (c : Convention) (address : N)
| call_logInfo (info : string) (severity : Severity)
| call_exportAPIFunction (selector : string) (ptr : api_ptr)
| call_scheduleOnLoad (fn : loadfn_t).

Definition perform (c : Call) : St Env unit :=
  match c with
  | call_addHook d cv displayName address => addHook d cv displayName address ;; ret tt
  | call_addHook_address d cv address => addHook_address d cv address ;; ret tt
  | call_logInfo info severity => logInfo info severity
  | call_exportAPIFunction selector ptr => exportAPIFunction selector ptr
  | call_scheduleOnLoad fn => scheduleOnLoad fn
  end.

(** The same call made through the singleton, [Interface::get()->...]. *)
Definition perform_on_singleton (c : Call) : St Process unit :=
  p <- Interface_get ;;
  on p (perform c).

(** ** What a Mod receives

    Every way the facade reaches a Mod is a call of one of four kinds. *)
Inductive ModCall : Type :=
| mod_addHook (f : addFunction_t) (displayName : string) (address : N)
| mod_logInfo (info : string) (severity : Severity)
| mod_exportAPIFunction (selector : string) (func : unknownmemfn_t + unknownfn_t)
| mod_loadfn (fn : loadfn_t).

(** The state of a Mod after it has served a call. *)
Definition receive (c : ModCall) (obj : Mod) : Mod :=
  match c with
  | mod_addHook (Mod_addHook_ptr d cv) displayName address =>
      snd (Mod_addHook d cv displayName address obj)
  | mod_logInfo info severity => Mod_logInfo info severity obj
  | mod_exportAPIFunction selector (inl fn) =>
      Mod_exportAPIFunction_memfn selector fn obj
  | mod_exportAPIFunction selector (inr fn) =>
      Mod_exportAPIFunction_fn selector fn obj
  | mod_loadfn fn => invoke_loadfn fn obj
  end.

Definition receive_all (cs : list ModCall) (obj : Mod) : Mod :=
  foldl (fun o c => receive c o) obj cs.

(** The type-erased function an export call hands over. *)
Definition erase (ptr : api_ptr) : unknownmemfn_t + unknownfn_t :=
  if is_member_function_pointer_v ptr
  then inl (reference_cast_unknownmemfn ptr)
  else inr (reinterpret_cast_unknownfn ptr).

(** The entry a call on the facade asks to be buffered, by kind. *)
Definition hook_of (c : Call) : option ScheduledHook :=
  match c with
  | call_addHook d cv displayName address =>
      Some (mkScheduledHook displayName address (Mod_addHook_ptr d cv))
  | call_addHook_address d cv address =>
      Some (mkScheduledHook EmptyString address (Mod_addHook_ptr d cv))
  | _ => None
  end.

Definition log_of (c : Call) : option ScheduledLog :=
  match c with
  | call_logInfo info severity => Some (mkScheduledLog info severity)
  | _ => None
  end.

Definition export_of (c : Call) : option ScheduledExport :=
  match c with
  | call_exportAPIFunction selector ptr => Some (mkScheduledExport selector (erase ptr))
  | _ => None
  end.

Definition function_of (c : Call) : option loadfn_t :=
  match c with
  | call_scheduleOnLoad fn => Some fn
  | _ => None
  end.

(** The call on the Mod each buffered entry stands for. *)
Definition call_of_hook (h : ScheduledHook) : ModCall :=
  mod_addHook (m_addFunction h) (m_displayName h) (m_address h).

Definition call_of_log (l : ScheduledLog) : ModCall :=
  mod_logInfo (m_info l) (m_severity l).

Definition call_of_export (e : ScheduledExport) : ModCall :=
  mod_exportAPIFunction (m_selector e) (m_func e).

(** The call on the Mod a call on the facade asks for. *)
Definition request (c : Call) : ModCall :=
  match c with
  | call_addHook d cv displayName address =>
      mod_addHook (Mod_addHook_ptr d cv) displayName address
  | call_addHook_address d cv address =>
      mod_addHook (Mod_addHook_ptr d cv) EmptyString address
  | call_logInfo info severity => mod_logInfo info severity
  | call_exportAPIFunction selector ptr => mod_exportAPIFunction selector (erase ptr)
  | call_scheduleOnLoad fn => mod_loadfn fn
  end.

(** The order of replay the spec gives for [init]: every hook, then every
    log, then every export, then every load callback. *)
Definition replay_order (calls : list Call) : list ModCall :=
  (call_of_hook <$> omap hook_of calls) ++
  (call_of_log <$> omap log_of calls) ++
  (call_of_export <$> omap export_of calls) ++
  (mod_loadfn <$> omap function_of calls).

(** The Interface once [calls] have all been buffered. *)
Definition buffered (calls : list Call) (i : Interface) : Interface :=
  mkInterface (m_mod i)
              (m_scheduledHooks i ++ omap hook_of calls)
              (m_scheduledLogs i ++ omap log_of calls)
              (m_scheduledExports i ++ omap export_of calls)
              (m_scheduledFunctions i ++ omap function_of calls).

End Facade.

(** ** A Mod that records what it receives

    A stand-in for the Mod class in concrete runs: its state is the list
    of calls it has served, an install at address 0 is refused and any
    other install answers with a fresh Hook. *)
Inductive Observed : Type :=
| saw_addHook (detour : N) (convention : nat) (displayName : string) (address : N)
| saw_logInfo (info : string) (severity : nat)
| saw_export_memfn (selector : string) (fn : unknownmemfn_t)
| saw_export_fn (selector : string) (fn : unknownfn_t)
| saw_loadfn (fn : loadfn_t).

Definition recorder : ModApi := {|
  Severity := nat;
  Detour := N;
  Convention := nat;
  Mod := list Observed;
  Log := list Observed;
  Mod_addHook d c displayName address obj :=
    (if (address =? 0)%N then Err "unhookable address"
     else Ok (Some (Pos.of_succ_nat (length obj))),
     obj ++ [saw_addHook d c displayName address]);
  Mod_logInfo info severity obj := obj ++ [saw_logInfo info severity];
  Mod_exportAPIFunction_memfn selector fn obj := obj ++ [saw_export_memfn selector fn];
  Mod_exportAPIFunction_fn selector fn obj := obj ++ [saw_export_fn selector fn];
  Mod_log obj := obj;
  invoke_loadfn fn obj := obj ++ [saw_loadfn fn];
|}.

(** ** The Mod of the spec

    A Module as the spec describes it: the ordered sequence of its
    installed Hooks, its log records, its table of exports and the load
    callbacks it was handed. *)
Record Hook : Type := mkHook {
  hook_address : N;
  hook_displayName : string;
  hook_detour : N;
  hook_convention : nat;
  hook_enabled : bool;
}.

Record SpecMod : Type := mkSpecMod {
  module_hooks : list Hook;
  module_log : list (string * nat);
  module_exports : gmap string (unknownmemfn_t + unknownfn_t);
  module_loaded : list loadfn_t;
}.

(** The addresses at which the Module has a Hook installed. *)
Definition hooked (obj : SpecMod) : list N :=
  hook_address <$> module_hooks obj.

(** Modelled from the spec: [Mod::addHook<Detour, Convention>], the install
    routine of the Module; Mod.hpp is not part of the sources at hand.
    The hook-install backend, "given (address, detour, convention,
    displayName), returns" a handle or an error kind; "duplicate hook" is
    the kind for an address at which a Hook is installed ("a Hook is never
    installed twice at the same address without first being removed"), and
    [backend] answers for every other address.  A Hook that is installed
    is appended: "insertion order = install order". *)
Definition SpecMod_addHook (backend : N -> nat -> string -> N -> Result pointer)
    (d : N) (c : nat) (displayName : string) (address : N) (obj : SpecMod)
    : Result pointer * SpecMod :=
  if decide (address ∈ hooked obj) then (Err "duplicate hook", obj)
  else
    match backend d c displayName address with
    | Ok handle =>
        (Ok handle,
         mkSpecMod (module_hooks obj ++ [mkHook address displayName d c true])
                  (module_log obj) (module_exports obj) (module_loaded obj))
    | Err e => (Err e, obj)
    end.

(** Modelled from the spec: the other member functions of Mod the facade
    calls.  The logger takes the record; "re-exporting the same selector
    overwrites the previous entry"; a load callback is the mod author's
    code, of which the Module keeps that it was invoked. *)
Definition SpecMod_api (backend : N -> nat -> string -> N -> Result pointer)
    : ModApi := {|
  Severity := nat;
  Detour := N;
  Convention := nat;
  Mod := SpecMod;
  Log := list (string * nat);
  Mod_addHook := SpecMod_addHook backend;
  Mod_logInfo info severity obj :=
    mkSpecMod (module_hooks obj) (module_log obj ++ [(info, severity)])
             (module_exports obj) (module_loaded obj);
  Mod_exportAPIFunction_memfn selector fn obj :=
    mkSpecMod (module_hooks obj) (module_log obj)
             (<[selector := inl fn]> (module_exports obj)) (module_loaded obj);
  Mod_exportAPIFunction_fn selector fn obj :=
    mkSpecMod (module_hooks obj) (module_log obj)
             (<[selector := inr fn]> (module_exports obj)) (module_loaded obj);
  Mod_log obj := module_log obj;
  invoke_loadfn fn obj :=
    mkSpecMod (module_hooks obj) (module_log obj) (module_exports obj)
             (module_loaded obj ++ [fn]);
|}.

(** A backend that installs wherever it is asked to. *)
Definition willing_backend : N -> nat -> string -> N -> Result pointer :=
  fun _ _ _ address => Ok (Some (N.succ_pos address)).

Definition SpecMod_new : SpecMod := mkSpecMod [] [] ∅ [].

(** A store with one new Module, at address 1. *)
Definition one_SpecMod : gmap positive SpecMod := {[ 1%positive := SpecMod_new ]}.

(** Two hooks asked for at one address while no Mod is attached. *)
Definition twice_at_256 : list (Call (api := SpecMod_api willing_backend)) :=
  [ call_addHook (api := SpecMod_api willing_backend) 1%N 0 "a" 256%N;
    call_addHook (api := SpecMod_api willing_backend) 2%N 0 "b" 256%N ].

(** ** States and calls for concrete runs *)

(** An Interface with nothing attached and no Mod at all. *)
Definition unattached_env : Env (api := recorder) :=
  mkEnv Interface_new ∅.

(** A store with one Mod, at address 1, that has served nothing yet. *)
Definition one_mod : gmap positive (Mod (ModApi := recorder)) :=
  {[ 1%positive := [] ]}.

(** An Interface attached to that Mod. *)
Definition attached_env : Env (api := recorder) :=
  mkEnv (api := recorder) (set_mod (Some 1%positive) Interface_new) one_mod.

Definition boot_calls : list (Call (api := recorder)) :=
  [ call_addHook (api := recorder) 1%N 0 "a" 256%N;
    call_logInfo (api := recorder) "boot" 1;
    call_scheduleOnLoad (loadfn 9);
    call_addHook (api := recorder) 2%N 0 "b" 512%N;
    call_exportAPIFunction "getVersion" (function_pointer 64) ].

(** A process in which [Interface::get] has not run and no Mod exists. *)
Definition boot_process : Process (api := recorder) :=
  mkProcess (api := recorder) None ∅ ∅.

(** A process whose singleton, at address 1, is attached to the Mod at
    address 1. *)
Definition attached_process : Process (api := recorder) :=
  mkProcess (api := recorder) (Some (Some 1%positive))
            {[ 1%positive := set_mod (Some 1%positive) Interface_new ]}
            one_mod.

(** * The rest of the header: batches of hooks, the sprite-name literal
      and the observer overloads *)

Section Batches.
Context `{api : ModApi}.

(** One [addHook<Detour, Convention>(displayName, address)] call site. *)
Record HookRequest : Type := mkHookRequest {
  request_detour : Detour;
  request_convention : Convention;
  request_displayName : string;
  request_address : N;
}.

(** The entry [addHook] buffers for a call site. *)
Definition entry_of (r : HookRequest) : ScheduledHook :=
  mkScheduledHook (request_displayName r) (request_address r)
                  (Mod_addHook_ptr (request_detour r) (request_convention r)).

(** The calls of [addHook] of a list of call sites, one after the other,
    with the Result each caller was handed. *)
Fixpoint addHooks (rs : list HookRequest) : St Env (list (Result pointer)) :=
  match rs with
  | [] => ret []
  | r :: rs' =>
      x <- addHook (request_detour r) (request_convention r)
                   (request_displayName r) (request_address r) ;;
      xs <- addHooks rs' ;;
      ret (x :: xs)
  end.

(** What a Mod answers to the same call sites, made on it directly, and
    the state it is left in. *)
Fixpoint Mod_addHooks (rs : list HookRequest) (obj : Mod)
    : list (Result pointer) * Mod :=
  match rs with
  | [] => ([], obj)
  | r :: rs' =>
      let '(x, obj') :=
        Mod_addHook (request_detour r) (request_convention r)
                    (request_displayName r) (request_address r) obj in
      let '(xs, obj'') := Mod_addHooks rs' obj' in
      (x :: xs, obj'')
  end.

(** [p->member(...)] for a member function of Mod, from a static
    function: undefined when [p] is null or dangling. *)
Definition Mod_arrow {A} (p : pointer) (method : Mod -> A * Mod) : St Process A :=
  fun s =>
    match p with
    | Some a =>
        match modules s !! a with
        | Some obj =>
            let '(r, obj') := method obj in
            Some (r, mkProcess (get_ret s) (interfaces s) (<[a := obj']> (modules s)))
        | None => None
        end
    | None => None
    end.

(** [Interface::get()->member(...)]: a member function called on the
    singleton. *)
Definition through_singleton {A} (member : St Env A) : St Process A :=
  p <- Interface_get ;;
  on p member.

End Batches.

(** Two call sites, the second at an address the recording Mod refuses. *)
Definition two_requests : list (HookRequest (api := recorder)) :=
  [ mkHookRequest (api := recorder) 1%N 0 "a" 256%N;
    mkHookRequest (api := recorder) 2%N 0 "b" 0%N ].

(** What the last lines of the header take from Mod.hpp and from the event
    headers, none of which is at hand: [Mod::expandSpriteName], which may
    update the Mod, the state of an EventCenter, [EventInfo<T>] with its
    constructor from a selector, the callbacks, and the overload of
    [EventCenter::registerObserver] that takes the owning Mod first. *)
Class GlueApi {api : ModApi} : Type := {
  Mod_expandSpriteName : string -> Mod -> string * Mod;
  EventCenter : Type;
  EventInfo : Type;
  Callback : Type;
  EventInfo_of_selector : string -> EventInfo;
  registerObserver_for : pointer -> EventInfo -> Callback -> EventCenter
                         -> pointer * EventCenter;
}.

Section Glue.
Context `{api : ModApi} {glue : GlueApi}.

(** The literal operator [_spr]:
    [return geode::Mod::get()->expandSpriteName(str);]. *)
Definition operator_spr (str : string) : St Process string :=
  m <- Mod_get ;;
  Mod_arrow m (Mod_expandSpriteName str).

(** A member function of EventCenter that also runs a static function of
    the process. *)
Definition with_Mod_get {A} (k : pointer -> EventCenter -> A * EventCenter)
    : St (Process * EventCenter) A :=
  fun '(s, ec) =>
    match Mod_get s with
    | Some (m, s') => let '(r, ec') := k m ec in Some (r, (s', ec'))
    | None => None
    end.

(** [EventCenter::registerObserver<T>(sel, cb)]:
    [return registerObserver(Mod::get(), EventInfo<T>(sel), cb);]. *)
Definition registerObserver_selector (sel : string) (cb : Callback)
    : St (Process * EventCenter) pointer :=
  with_Mod_get (fun m => registerObserver_for m (EventInfo_of_selector sel) cb).

(** [EventCenter::registerObserver<T>(info, cb)]:
    [return registerObserver(Mod::get(), info, cb);]. *)
Definition registerObserver_info (info : EventInfo) (cb : Callback)
    : St (Process * EventCenter) pointer :=
  with_Mod_get (fun m => registerObserver_for m info cb).

End Glue.

(** A GlueApi over the recording Mod: a sprite name is prefixed with the
    id of the Mod, an EventCenter is the list of the owners and selectors
    registered. *)
Definition recorder_glue : GlueApi (api := recorder) := {|
  Mod_expandSpriteName str obj := ("geode.test/" +:+ str, obj);
  EventCenter := list (pointer * string);
  EventInfo := string;
  Callback := nat;
  EventInfo_of_selector sel := sel;
  registerObserver_for m info cb ec :=
    (Some (Pos.of_succ_nat (length ec)), ec ++ [(m, info)]);
|}.

(** A process whose singleton is attached to a Mod that is gone. *)
Definition dangling_process : Process (api := recorder) :=
  mkProcess (api := recorder) (Some (Some 1%positive))
            {[ 1%positive := set_mod (Some 7%positive) Interface_new ]}
            one_mod.

(** * CustomLoadingLayer: the hook on the loading screen

    loader/src/hooks/LoadingLayer.cpp.  The layer calls into the engine,
    the loader and the original LoadingLayer; each such call is recorded,
    in order, and what the callee answers is an input. *)

(** The engine's [float], with the one operation and the two literals the
    hook uses. *)
Class FloatApi : Type := {
  float : Type;
  float_half : float -> float;
  float_30 : float;
  float_045 : float;
}.

(** What a callee reads from [text.c_str()]: the characters of [text]
    before its first NUL. *)
Fixpoint c_str (text : string) : string :=
  match text with
  | EmptyString => EmptyString
  | String c rest =>
      if Ascii.eqb c Ascii.zero then EmptyString else String c (c_str rest)
  end.

(** The three alternatives of [event->status]: the progress made (a
    percentage and a text), the end of the download, or the error. *)
Inductive UpdateStatus : Type :=
| UpdateProgress (first : N) (second : string)
| UpdateFinished
| UpdateFailed (error : string).

Section LoadingLayer.
Context `{fl : FloatApi}.

(** The label [init] builds. *)
Record CCLabelBMFont : Type := mkLabel {
  label_string : string;
  label_fntFile : string;
  label_position : float * float;
  label_scale : float;
  label_id : string;
}.

(** The calls the hook makes on the world around it. *)
Inductive Effect : Type :=
| Loader_waitForModsToBeLoaded
| LoadingLayer_init (fromReload : bool)
| addChild_label (label : CCLabelBMFont)
| addChild_listener
| InternalLoader_verifyLoaderResources
| m_textArea_setString (text : string)
| LoadingLayer_loadAssets
| platformMessageBox (title : string) (info : string).

(** What the callees answer during [init]. *)
Record Answers : Type := mkAnswers {
  LoadingLayer_init_result : bool;
  winSize_width : float;
  getAllMods_size : N;
  verifyLoaderResources_result : bool;
}.

(** The field of the hook, and the calls made so far. *)
Record CustomLoadingLayer : Type := mkLayer {
  m_updatingResources : bool;
  effects : list Effect;
}.

(** The constructor: [m_updatingResources(false)]. *)
Definition CustomLoadingLayer_new : CustomLoadingLayer := mkLayer false [].

Definition emit (e : Effect) (l : CustomLoadingLayer) : CustomLoadingLayer :=
  mkLayer (m_updatingResources l) (effects l ++ [e]).

Definition set_updatingResources (b : bool) (l : CustomLoadingLayer)
    : CustomLoadingLayer :=
  mkLayer b (effects l).

(** [setUpdateText(text)]: [m_textArea->setString(text.c_str());]. *)
Definition setUpdateText (text : string) (l : CustomLoadingLayer)
    : CustomLoadingLayer :=
  emit (m_textArea_setString (c_str text)) l.

(** [loadAssets()]: nothing while resources are being updated, the
    original otherwise. *)
Definition loadAssets (l : CustomLoadingLayer) : CustomLoadingLayer :=
  if m_updatingResources l then l else emit LoadingLayer_loadAssets l.

(** The text of the message box of a failed update. *)
Definition update_failed_info (error : string) : string :=
  "Unable to update Geode resources: " +:+ error +:+ "." +:+
  String (Ascii.ascii_of_nat 10)
    "The game will be loaded as normal, but please be aware that it may very likely crash.".

(** [updateResourcesProgress(event)]: the visit of [event->status]. *)
Definition updateResourcesProgress (status : UpdateStatus)
    (l : CustomLoadingLayer) : CustomLoadingLayer :=
  match status with
  | UpdateProgress first _ =>
      setUpdateText ("Downloading Resources: " +:+ pretty first +:+ "%") l
  | UpdateFinished =>
      let l1 := setUpdateText "Resources Downloaded" l in
      let l2 := set_updatingResources false l1 in
      loadAssets l2
  | UpdateFailed error =>
      let l1 := emit (platformMessageBox "Error updating resources"
                                         (update_failed_info error)) l in
      let l2 := setUpdateText "Resource Download Failed" l1 in
      let l3 := set_updatingResources false l2 in
      loadAssets l3
  end.

(** [init(fromReload)]. *)
Definition CustomLoadingLayer_init (answers : Answers) (fromReload : bool)
    (l : CustomLoadingLayer) : bool * CustomLoadingLayer :=
  let l1 := emit Loader_waitForModsToBeLoaded l in
  let l2 := emit (LoadingLayer_init fromReload) l1 in
  if negb (LoadingLayer_init_result answers) then (false, l2)
  else
    let label :=
      mkLabel (c_str ("Geode: Loaded " +:+ pretty (getAllMods_size answers)
                      +:+ " mods"))
              "goldFont.fnt"
              (float_half (winSize_width answers), float_30)
              float_045
              "geode-loaded-info" in
    let l3 := emit (addChild_label label) l2 in
    let l4 := emit addChild_listener l3 in
    let l5 := emit InternalLoader_verifyLoaderResources l4 in
    if negb (verifyLoaderResources_result answers) then
      (true, setUpdateText "Downloading Resources" (set_updatingResources true l5))
    else (true, l5).

(** What happens to the layer once it is up: the game asks it to load the
    assets, or the listener hands it a download event. *)
Inductive Action : Type :=
| game_loadAssets
| download_event (status : UpdateStatus).

Definition step (l : CustomLoadingLayer) (a : Action) : CustomLoadingLayer :=
  match a with
  | game_loadAssets => loadAssets l
  | download_event status => updateResourcesProgress status l
  end.

Definition run (acts : list Action) (l : CustomLoadingLayer) : CustomLoadingLayer :=
  foldl step l acts.

Definition is_progress (a : Action) : bool :=
  match a with
  | download_event (UpdateProgress _ _) => true
  | _ => false
  end.

Definition is_failure (a : Action) : bool :=
  match a with
  | download_event (UpdateFailed _) => true
  | _ => false
  end.

(** The actions that cannot release the assets: a request of the game, or
    progress. *)
Definition holds_back (a : Action) : bool :=
  match a with
  | game_loadAssets => true
  | download_event (UpdateProgress _ _) => true
  | _ => false
  end.

Definition is_LoadingLayer_loadAssets (e : Effect) : bool :=
  match e with LoadingLayer_loadAssets => true | _ => false end.

Definition is_platformMessageBox (e : Effect) : bool :=
  match e with platformMessageBox _ _ => true | _ => false end.

(** How often the original [LoadingLayer::loadAssets] has run. *)
Definition assets_loaded (l : CustomLoadingLayer) : nat :=
  length (List.filter is_LoadingLayer_loadAssets (effects l)).

Definition message_boxes (l : CustomLoadingLayer) : nat :=
  length (List.filter is_platformMessageBox (effects l)).

(** The text the text area shows: the last one set, if any. *)
Definition shown_text (l : CustomLoadingLayer) : option string :=
  last (omap (fun e => match e with
                       | m_textArea_setString text => Some text
                       | _ => None
                       end) (effects l)).

(** The two alternatives that end a download. *)
Definition ends_download (status : UpdateStatus) : bool :=
  match status with
  | UpdateProgress _ _ => false
  | UpdateFinished => true
  | UpdateFailed _ => true
  end.

(** Whether an action calls [loadAssets] of the hook: a request of the
    game does, and so does the end of a download. *)
Definition asks_for_assets (a : Action) : bool :=
  match a with
  | game_loadAssets => true
  | download_event status => ends_download status
  end.

(** The text each alternative puts in the text area. *)
Definition status_text (status : UpdateStatus) : string :=
  match status with
  | UpdateProgress first _ => "Downloading Resources: " +:+ pretty first +:+ "%"
  | UpdateFinished => "Resources Downloaded"
  | UpdateFailed _ => "Resource Download Failed"
  end.

Definition event_of (a : Action) : option UpdateStatus :=
  match a with
  | game_loadAssets => None
  | download_event status => Some status
  end.

End LoadingLayer.

(** Floats as scaled integers, for concrete runs. *)
Definition test_floats : FloatApi := {|
  float := Z;
  float_half x := (x / 2)%Z;
  float_30 := 3000%Z;
  float_045 := 45%Z;
|}.

Definition resources_missing : Answers (fl := test_floats) :=
  mkAnswers (fl := test_floats) true 56900%Z 3 false.

Definition init_refused : Answers (fl := test_floats) :=
  mkAnswers (fl := test_floats) false 56900%Z 3 false.

(** A new layer after an [init] that found the resources missing. *)
Definition waiting_layer : CustomLoadingLayer (fl := test_floats) :=
  snd (CustomLoadingLayer_init resources_missing false CustomLoadingLayer_new).

Definition impatient_actions : list Action :=
  [ game_loadAssets; download_event (UpdateProgress 40 "fetching");
    game_loadAssets ].

Definition later_actions : list Action :=
  [ game_loadAssets; download_event (UpdateProgress 100 "late");
    game_loadAssets ].

(** * Properties *)

Section Scheduling.
Context `{api : ModApi}.

(** ** addHook *)

Lemma addHook_null (d : Detour) (c : Convention)
    (displayName : string) (address : N) (w : Env) :
  m_mod (self w) = nullptr ->
  addHook d c displayName address w =
    Some (Ok nullptr,
          mkEnv (push_back_hook
                   (mkScheduledHook displayName address (Mod_addHook_ptr d c))
                   (self w))
                (mods w)).
Proof. intros Hnull. unfold addHook, bind, this. by rewrite Hnull. Qed.

Lemma addHook_live (d : Detour) (c : Convention)
    (displayName : string) (address : N) (w : Env) (a : positive) (obj : Mod) :
  m_mod (self w) = Some a ->
  mods w !! a = Some obj ->
  addHook d c displayName address w =
    Some (fst (Mod_addHook d c displayName address obj),
          mkEnv (self w)
                (<[a := snd (Mod_addHook d c displayName address obj)]> (mods w))).
Proof.
  intros Hmod Hobj.
  unfold addHook, bind, this, arrow. rewrite Hmod, Hobj.
  by destruct (Mod_addHook d c displayName address obj).
Qed.

(** C2: while no Mod is attached, [addHook<Detour, Convention>(displayName,
    address)] appends one ScheduledHook holding the display name, the
    address and the pointer to [Mod::addHook<Detour, Convention>], changes
    nothing else, and returns a successful Result holding a null Hook
    pointer. *)
Theorem addHook_unattached (d : Detour) (c : Convention)
    (displayName : string) (address : N) (w : Env) :
  m_mod (self w) = nullptr ->
  exists w',
    addHook d c displayName address w = Some (Ok nullptr, w') /\
    m_scheduledHooks (self w') =
      m_scheduledHooks (self w) ++
        [mkScheduledHook displayName address (Mod_addHook_ptr d c)] /\
    m_scheduledLogs (self w') = m_scheduledLogs (self w) /\
    m_scheduledExports (self w') = m_scheduledExports (self w) /\
    m_scheduledFunctions (self w') = m_scheduledFunctions (self w) /\
    m_mod (self w') = nullptr /\
    mods w' = mods w.
Proof.
  intros Hnull. eexists. split; [by apply addHook_null|].
  cbn. repeat split; done.
Qed.

(** C3: while a Mod is attached, [addHook<Detour, Convention>(displayName,
    address)] buffers nothing: it is the call of the Mod's own
    [addHook<Detour, Convention>(displayName, address)], whose Result it
    returns; the Mod is left as that call leaves it, and the Interface,
    all four buffers included, is unchanged. *)
Theorem addHook_attached (d : Detour) (c : Convention)
    (displayName : string) (address : N) (w : Env) (a : positive) (obj : Mod) :
  m_mod (self w) = Some a ->
  mods w !! a = Some obj ->
  exists w',
    addHook d c displayName address w =
      Some (fst (Mod_addHook d c displayName address obj), w') /\
    mods w' = <[a := snd (Mod_addHook d c displayName address obj)]> (mods w) /\
    self w' = self w /\
    m_scheduledHooks (self w') = m_scheduledHooks (self w) /\
    m_scheduledLogs (self w') = m_scheduledLogs (self w) /\
    m_scheduledExports (self w') = m_scheduledExports (self w) /\
    m_scheduledFunctions (self w') = m_scheduledFunctions (self w).
Proof.
  intros Hmod Hobj. eexists. split; [by apply addHook_live|].
  cbn. repeat split; done.
Qed.

(** C8: the overload of [addHook] without a display name is the overload
    with one, called with the empty string: in every state both return the
    same result and leave the same state. *)
Theorem addHook_address_default_name (d : Detour) (c : Convention)
    (address : N) (w : Env) :
  addHook_address d c address w = addHook d c EmptyString address w.
Proof. reflexivity. Qed.

(** ** Runs of calls *)

Lemma buffered_nil (i : Interface) : buffered [] i = i.
Proof. destruct i. unfold buffered. cbn. by rewrite !app_nil_r. Qed.

Lemma buffered_cons (c : Call) (calls : list Call) (i : Interface) :
  buffered calls (buffered [c] i) = buffered (c :: calls) i.
Proof.
  unfold buffered. cbn [m_mod m_scheduledHooks m_scheduledLogs
                        m_scheduledExports m_scheduledFunctions].
  rewrite <- !app_assoc, <- !omap_app. reflexivity.
Qed.

(** While no Mod is attached every call only buffers its entry. *)
Lemma perform_unattached (c : Call) (w : Env) :
  m_mod (self w) = nullptr ->
  perform c w = Some (tt, mkEnv (buffered [c] (self w)) (mods w)).
Proof.
  intros Hnull. destruct w as [[m hs ls es fs] store]. cbn in Hnull. subst m.
  destruct c as [d cv n a|d cv a|info sev|sel [bits|addr]|fn]; cbn;
    unfold ret, buffered, push_back_hook, push_back_log, push_back_export,
      push_back_function; cbn; by rewrite ?app_nil_r.
Qed.

Lemma run_unattached (calls : list Call) (w : Env) :
  m_mod (self w) = nullptr ->
  for_each calls perform w = Some (tt, mkEnv (buffered calls (self w)) (mods w)).
Proof.
  revert w. induction calls as [|c calls IH]; intros w Hnull.
  - cbn. rewrite buffered_nil. by destruct w.
  - cbn [for_each]. unfold bind. rewrite perform_unattached by done.
    rewrite IH by done. cbn. by rewrite buffered_cons.
Qed.

(** A loop whose body is one call on a live Mod serves the calls in the
    order of the list. *)
Lemma for_each_served {A} (body : A -> St Env unit) (g : A -> ModCall)
    (a : positive) :
  (forall x i store obj, store !! a = Some obj ->
     body x (mkEnv i store) = Some (tt, mkEnv i (<[a := receive (g x) obj]> store))) ->
  forall l i (store : gmap positive Mod) obj, store !! a = Some obj ->
    for_each l body (mkEnv i store) =
      Some (tt, mkEnv i (<[a := receive_all (g <$> l) obj]> store)).
Proof.
  intros Hbody. induction l as [|x l IH]; intros i store obj Hobj.
  - cbn. by rewrite insert_id.
  - cbn [for_each]. unfold bind. rewrite (Hbody x i store obj Hobj).
    rewrite (IH i _ (receive (g x) obj)) by apply lookup_insert_eq.
    by rewrite insert_insert_eq.
Qed.

Lemma arrow_void (f : Mod -> Mod) (a : positive) i (store : gmap positive Mod) obj :
  store !! a = Some obj ->
  arrow (Some a) (void f) (mkEnv i store) = Some (tt, mkEnv i (<[a := f obj]> store)).
Proof. intros Hobj. unfold arrow, void. cbn. by rewrite Hobj. Qed.

Lemma replay_hook_served (a : positive) h i (store : gmap positive Mod) obj :
  store !! a = Some obj ->
  replay_hook (Some a) h (mkEnv i store) =
    Some (tt, mkEnv i (<[a := receive (call_of_hook h) obj]> store)).
Proof.
  intros Hobj. destruct h as [n addr [d cv]].
  unfold replay_hook, bind, invoke_addFunction, arrow. cbn. rewrite Hobj.
  by destruct (Mod_addHook d cv n addr obj).
Qed.

Lemma replay_log_served (a : positive) l i (store : gmap positive Mod) obj :
  store !! a = Some obj ->
  replay_log (Some a) l (mkEnv i store) =
    Some (tt, mkEnv i (<[a := receive (call_of_log l) obj]> store)).
Proof. intros Hobj. unfold replay_log. by rewrite (arrow_void _ _ _ _ obj). Qed.

Lemma replay_export_served (a : positive) e i (store : gmap positive Mod) obj :
  store !! a = Some obj ->
  replay_export (Some a) e (mkEnv i store) =
    Some (tt, mkEnv i (<[a := receive (call_of_export e) obj]> store)).
Proof.
  intros Hobj. destruct e as [sel [fn|fn]]; unfold replay_export; cbn;
    by rewrite Hobj.
Qed.

Lemma replay_function_served (a : positive) fn i (store : gmap positive Mod) obj :
  store !! a = Some obj ->
  replay_function (Some a) fn (mkEnv i store) =
    Some (tt, mkEnv i (<[a := receive (mod_loadfn fn) obj]> store)).
Proof. intros Hobj. unfold replay_function. by rewrite (arrow_void _ _ _ _ obj). Qed.

Lemma receive_all_app (cs1 cs2 : list ModCall) (obj : Mod) :
  receive_all (cs1 ++ cs2) obj = receive_all cs2 (receive_all cs1 obj).
Proof. unfold receive_all. apply foldl_app. Qed.

(** [init] on a live Mod: the Mod serves the hooks, then the logs, then the
    exports, then the load callbacks, and the buffers end up empty. *)
Lemma init_live (module : positive) (i : Interface)
    (store : gmap positive Mod) (obj : Mod) :
  store !! module = Some obj ->
  init (Some module) (mkEnv i store) =
    Some (tt,
          mkEnv (mkInterface (Some module) [] [] [] [])
                (<[module :=
                     receive_all
                       ((call_of_hook <$> m_scheduledHooks i) ++
                        (call_of_log <$> m_scheduledLogs i) ++
                        (call_of_export <$> m_scheduledExports i) ++
                        (mod_loadfn <$> m_scheduledFunctions i)) obj]> store)).
Proof.
  intros Hobj. unfold init, bind, assign, this. cbn.
  rewrite (for_each_served _ call_of_hook module
             (fun x i s o => replay_hook_served module x i s o) _ _ _ obj Hobj).
  rewrite (for_each_served _ call_of_log module
             (fun x i s o => replay_log_served module x i s o) _ _ _ _
             (lookup_insert_eq _ _ _)).
  rewrite insert_insert_eq.
  rewrite (for_each_served _ call_of_export module
             (fun x i s o => replay_export_served module x i s o) _ _ _ _
             (lookup_insert_eq _ _ _)).
  rewrite insert_insert_eq.
  rewrite (for_each_served _ mod_loadfn module
             (fun x i s o => replay_function_served module x i s o) _ _ _ _
             (lookup_insert_eq _ _ _)).
  rewrite insert_insert_eq.
  by rewrite !receive_all_app.
Qed.

(** Each buffer keeps the order of the calls. *)
Lemma omap_request_sublist {A} (f : Call -> option A) (g : A -> ModCall)
    (calls : list Call) :
  (forall c y, f c = Some y -> g y = request c) ->
  sublist (g <$> omap f calls) (request <$> calls).
Proof.
  intros Hfg. induction calls as [|c calls IH]; cbn.
  - constructor.
  - destruct (f c) as [y|] eqn:Hc; cbn.
    + rewrite (Hfg c y Hc). by apply sublist_skip.
    + by apply sublist_cons.
Qed.

Lemma replay_order_cons (c : Call) (calls : list Call) :
  replay_order (c :: calls) ≡ₚ request c :: replay_order calls.
Proof.
  unfold replay_order.
  destruct c as [d cv n a|d cv a|info sev|sel ptr|fn]; cbn.
  - reflexivity.
  - reflexivity.
  - by rewrite <- Permutation_middle.
  - rewrite (app_assoc (call_of_hook <$> _)), <- Permutation_middle.
    by rewrite <- app_assoc.
  - rewrite !(app_assoc _ _ (_ :: _)), <- Permutation_middle.
    by rewrite <- !app_assoc.
Qed.

Lemma replay_order_Permutation (calls : list Call) :
  replay_order calls ≡ₚ request <$> calls.
Proof.
  induction calls as [|c calls IH]; [done|].
  rewrite replay_order_cons. cbn. by rewrite IH.
Qed.

(** ** init *)

(** C1: whatever calls of [addHook], [logInfo], [exportAPIFunction] and
    [scheduleOnLoad] were made on a new Interface while no Mod was
    attached, [init(module)] on a live [module] makes that Mod serve the
    buffered hooks, then the logs, then the exports, then the load
    callbacks, each buffer in the order of registration and every
    scheduled entry exactly once, and leaves the Interface attached to
    [module] with its four buffers empty. *)
Theorem init_replays_in_order (calls : list Call) (store : gmap positive Mod)
    (module : positive) (obj : Mod) :
  store !! module = Some obj ->
  exists w,
    for_each calls perform (mkEnv Interface_new store) = Some (tt, w) /\
    mods w = store /\
    init (Some module) w =
      Some (tt,
            mkEnv (mkInterface (Some module) [] [] [] [])
                  (<[module := receive_all (replay_order calls) obj]> store)) /\
    replay_order calls ≡ₚ request <$> calls /\
    length (replay_order calls) = length calls /\
    sublist (call_of_hook <$> omap hook_of calls) (request <$> calls) /\
    sublist (call_of_log <$> omap log_of calls) (request <$> calls) /\
    sublist (call_of_export <$> omap export_of calls) (request <$> calls) /\
    sublist (mod_loadfn <$> omap function_of calls) (request <$> calls).
Proof.
  intros Hobj. eexists. split; [by apply run_unattached|]. cbn [mods self].
  split; [done|]. split; [by rewrite (init_live module _ store obj Hobj)|].
  split; [apply replay_order_Permutation|].
  split; [by rewrite replay_order_Permutation, length_fmap|].
  repeat split; apply omap_request_sublist; intros [] y Hy; by simplify_eq/=.
Qed.

(** While a live Mod is attached every call goes to the Mod and leaves
    the Interface as it is. *)
Lemma perform_attached (c : Call) (w : Env) (a : positive) (obj : Mod) :
  m_mod (self w) = Some a ->
  mods w !! a = Some obj ->
  perform c w =
    Some (tt, mkEnv (self w) (<[a := receive (request c) obj]> (mods w))).
Proof.
  intros Hmod Hobj. destruct w as [[m hs ls es fs] store].
  cbn in Hmod, Hobj. subst m.
  destruct c as [d cv n addr|d cv addr|info sev|sel [bits|addr]|fn]; cbn;
    unfold addHook_address, addHook, scheduleOnLoad, bind, this, arrow, void, ret;
    cbn; rewrite ?Hobj; cbn.
  - by destruct (Mod_addHook d cv n addr obj).
  - by destruct (Mod_addHook d cv EmptyString addr obj).
  - done.
  - done.
  - done.
  - done.
Qed.

Lemma run_attached (calls : list Call) (w : Env) (a : positive) (obj : Mod) :
  m_mod (self w) = Some a ->
  mods w !! a = Some obj ->
  for_each calls perform w =
    Some (tt,
          mkEnv (self w) (<[a := receive_all (request <$> calls) obj]> (mods w))).
Proof.
  revert w obj. induction calls as [|c calls IH]; intros w obj Hmod Hobj.
  - cbn. rewrite insert_id by done. by destruct w.
  - cbn [for_each]. unfold bind. rewrite (perform_attached c w a obj Hmod Hobj).
    rewrite (IH _ (receive (request c) obj)); [|done|apply lookup_insert_eq].
    cbn. by rewrite insert_insert_eq.
Qed.

(** ** exportAPIFunction *)

(** C7: [exportAPIFunction(selector, ptr)] is decided by the kind of [ptr]:
    a pointer to a member function is erased to [unknownmemfn_t], any
    other to [unknownfn_t]; with a live Mod attached the pair of the
    selector and the erased function goes to the Mod's export function of
    that kind at once, and with no Mod attached it is appended as a
    ScheduledExport holding that alternative of the variant. *)
Theorem exportAPIFunction_dispatch (selector : string) (ptr : api_ptr) (w : Env) :
  (m_mod (self w) = nullptr ->
   exportAPIFunction selector ptr w =
     Some (tt,
           mkEnv (push_back_export
                    (mkScheduledExport selector
                       match ptr with
                       | member_function_pointer bits => inl (unknownmemfn bits)
                       | function_pointer addr => inr (unknownfn addr)
                       end) (self w))
                 (mods w))) /\
  (forall a obj,
     m_mod (self w) = Some a ->
     mods w !! a = Some obj ->
     exportAPIFunction selector ptr w =
       Some (tt,
             mkEnv (self w)
                   (<[a := match ptr with
                           | member_function_pointer bits =>
                               Mod_exportAPIFunction_memfn selector (unknownmemfn bits) obj
                           | function_pointer addr =>
                               Mod_exportAPIFunction_fn selector (unknownfn addr) obj
                           end]> (mods w)))).
Proof.
  split.
  - intros Hnull. destruct ptr; cbn;
      unfold exportAPIFunctionInternal_memfn, exportAPIFunctionInternal_fn,
        bind, this; by rewrite Hnull.
  - intros a obj Hmod Hobj. destruct ptr; cbn;
      unfold exportAPIFunctionInternal_memfn, exportAPIFunctionInternal_fn,
        bind, this, arrow, void; by rewrite Hmod, Hobj.
Qed.

(** ** Failure *)

(** C5: no scheduling operation can fail.  On an Interface that is
    unattached, or attached to a live Mod, [logInfo], [scheduleOnLoad] and
    [exportAPIFunction] always return, and they return nothing; while
    unattached [addHook] returns a successful Result and all four only
    buffer, the Mods untouched; [init] on a live Mod returns nothing
    either; and an error returned by [addHook] is the error of the Mod's
    own install operation, on an attached Interface. *)
Theorem scheduling_cannot_fail (w : Env) :
  (forall a, m_mod (self w) = Some a -> is_Some (mods w !! a)) ->
  (forall info severity, exists w', logInfo info severity w = Some (tt, w')) /\
  (forall fn, exists w', scheduleOnLoad fn w = Some (tt, w')) /\
  (forall selector ptr, exists w', exportAPIFunction selector ptr w = Some (tt, w')) /\
  (forall d c displayName address,
     exists r w', addHook d c displayName address w = Some (r, w')) /\
  (m_mod (self w) = nullptr ->
   (forall d c displayName address,
      exists w', addHook d c displayName address w = Some (Ok nullptr, w') /\
                 mods w' = mods w) /\
   (forall info severity,
      exists w', logInfo info severity w = Some (tt, w') /\ mods w' = mods w) /\
   (forall fn,
      exists w', scheduleOnLoad fn w = Some (tt, w') /\ mods w' = mods w) /\
   (forall selector ptr,
      exists w', exportAPIFunction selector ptr w = Some (tt, w') /\
                 mods w' = mods w)) /\
  (forall module obj, mods w !! module = Some obj ->
     exists w', init (Some module) w = Some (tt, w')) /\
  (forall d c displayName address e w',
     addHook d c displayName address w = Some (Err e, w') ->
     exists a obj,
       m_mod (self w) = Some a /\ mods w !! a = Some obj /\
       fst (Mod_addHook d c displayName address obj) = Err e).
Proof.
  intros Hlive.
  assert (Hcall : forall c : Call, exists w', perform c w = Some (tt, w')).
  { intros c. destruct (m_mod (self w)) as [a|] eqn:Hmod.
    - destruct (Hlive a eq_refl) as [obj Hobj].
      rewrite (perform_attached c w a obj Hmod Hobj). eauto.
    - rewrite (perform_unattached c w Hmod). eauto. }
  split; [intros info sev; apply (Hcall (call_logInfo info sev))|].
  split; [intros fn; apply (Hcall (call_scheduleOnLoad fn))|].
  split; [intros sel ptr; apply (Hcall (call_exportAPIFunction sel ptr))|].
  split.
  { intros d c n addr. destruct (m_mod (self w)) as [a|] eqn:Hmod.
    - destruct (Hlive a eq_refl) as [obj Hobj].
      rewrite (addHook_live d c n addr w a obj Hmod Hobj). eauto.
    - rewrite (addHook_null d c n addr w Hmod). eauto. }
  split.
  { intros Hnull.
    assert (Hpure : forall c : Call,
               exists w', perform c w = Some (tt, w') /\ mods w' = mods w).
    { intros c. rewrite (perform_unattached c w Hnull). eauto. }
    split.
    { intros d c n addr.
      rewrite (addHook_null d c n addr w Hnull). eauto. }
    split; [intros info sev; apply (Hpure (call_logInfo info sev))|].
    split; [intros fn; apply (Hpure (call_scheduleOnLoad fn))|].
    intros sel ptr; apply (Hpure (call_exportAPIFunction sel ptr)). }
  split.
  { intros module obj Hobj. destruct w as [i store].
    rewrite (init_live module i store obj Hobj). eauto. }
  intros d c n addr e w' Hadd.
  destruct (m_mod (self w)) as [a|] eqn:Hmod.
  - destruct (Hlive a eq_refl) as [obj Hobj].
    rewrite (addHook_live d c n addr w a obj Hmod Hobj) in Hadd.
    exists a, obj. repeat split; [done|]. by simplify_eq.
  - rewrite (addHook_null d c n addr w Hmod) in Hadd. discriminate.
Qed.

(** ** The discipline of the buffers *)

(** C4: until [init] the buffers only grow at their end, by the entries
    of the calls in their order; [init] clears all four, once; and after
    that, on the attached Interface, every scheduling call leaves all four
    buffers empty: none of them buffers again while the Mod pointer is not
    null, the calls go to the Mod. *)
Theorem buffers_append_only_then_cleared (pre1 pre2 post : list Call)
    (store : gmap positive Mod) (module : positive) (obj : Mod) :
  store !! module = Some obj ->
  exists w1 w2 w3 w4,
    for_each pre1 perform (mkEnv Interface_new store) = Some (tt, w1) /\
    for_each pre2 perform w1 = Some (tt, w2) /\
    m_scheduledHooks (self w2) = m_scheduledHooks (self w1) ++ omap hook_of pre2 /\
    m_scheduledLogs (self w2) = m_scheduledLogs (self w1) ++ omap log_of pre2 /\
    m_scheduledExports (self w2) =
      m_scheduledExports (self w1) ++ omap export_of pre2 /\
    m_scheduledFunctions (self w2) =
      m_scheduledFunctions (self w1) ++ omap function_of pre2 /\
    init (Some module) w2 = Some (tt, w3) /\
    self w3 = mkInterface (Some module) [] [] [] [] /\
    for_each post perform w3 = Some (tt, w4) /\
    self w4 = mkInterface (Some module) [] [] [] [] /\
    mods w4 =
      <[module := receive_all (replay_order (pre1 ++ pre2) ++ (request <$> post)) obj]>
        store.
Proof.
  intros Hobj.
  eexists _, _, _, _.
  split; [by apply run_unattached|].
  split; [by apply run_unattached|].
  cbn [self mods buffered m_scheduledHooks m_scheduledLogs m_scheduledExports
       m_scheduledFunctions].
  do 4 (split; [reflexivity|]).
  split; [by apply (init_live module _ store obj)|].
  cbn [self]. split; [reflexivity|].
  split; [apply (run_attached post _ module); [reflexivity|apply lookup_insert_eq]|].
  cbn [self mods]. split; [reflexivity|].
  etrans; [apply insert_insert_eq|].
  rewrite (receive_all_app (replay_order (pre1 ++ pre2))).
  unfold replay_order, buffered. cbn. by rewrite !omap_app.
Qed.

End Scheduling.

(** ** Two hooks at one address *)

Section OneHookPerAddress.
Variable backend : N -> nat -> string -> N -> Result pointer.

Local Abbreviation spec_api := (SpecMod_api backend).

Lemma SpecMod_addHook_keeps_NoDup (d : N) (c : nat) (displayName : string)
    (address : N) (obj : SpecMod) :
  NoDup (hooked obj) ->
  NoDup (hooked (snd (SpecMod_addHook backend d c displayName address obj))).
Proof.
  intros Hobj. unfold SpecMod_addHook.
  destruct (decide (address ∈ hooked obj)) as [Hin|Hout]; [done|].
  destruct (backend d c displayName address) as [handle|e]; [|done].
  unfold hooked. cbn. rewrite fmap_app. cbn.
  apply NoDup_app. split; [done|]. split; [|apply NoDup_singleton].
  intros x Hx Hx'. apply list_elem_of_singleton in Hx'. by subst x.
Qed.

Lemma receive_keeps_NoDup (c : ModCall (api := spec_api)) (obj : SpecMod) :
  NoDup (hooked obj) ->
  NoDup (hooked (receive (api := spec_api) c obj)).
Proof.
  intros Hobj. destruct c as [[d cv] n a|info sev|sel [fn|fn]|fn]; cbn; try done.
  by apply SpecMod_addHook_keeps_NoDup.
Qed.

Lemma receive_all_keeps_NoDup (cs : list (ModCall (api := spec_api)))
    (obj : SpecMod) :
  NoDup (hooked obj) ->
  NoDup (hooked (receive_all (api := spec_api) cs obj)).
Proof.
  revert obj. induction cs as [|c cs IH]; intros obj Hobj; [done|].
  cbn. apply IH. by apply receive_keeps_NoDup.
Qed.

Lemma no_Hook_where_not_hooked (hs : list Hook) (address : N) :
  address ∉ hook_address <$> hs ->
  filter (fun h => hook_address h = address) hs = [].
Proof.
  induction hs as [|h hs IH]; intros Hout; [done|].
  rewrite fmap_cons in Hout. apply not_elem_of_cons in Hout as [Hne Hout].
  rewrite filter_cons. destruct (decide (hook_address h = address)); [done|].
  by apply IH.
Qed.

(** With no address hooked twice, no address has two Hooks. *)
Lemma NoDup_one_Hook (obj : SpecMod) (address : N) :
  NoDup (hooked obj) ->
  length (filter (fun h => hook_address h = address) (module_hooks obj)) <= 1.
Proof.
  unfold hooked. induction (module_hooks obj) as [|h hs IH]; intros Hnodup.
  - cbn. lia.
  - rewrite fmap_cons in Hnodup. apply NoDup_cons in Hnodup as [Hh Hhs].
    rewrite filter_cons. destruct (decide (hook_address h = address)) as [Heq|].
    + rewrite no_Hook_where_not_hooked by (by rewrite <- Heq). cbn. lia.
    + by apply IH.
Qed.


End OneHookPerAddress.

Section Singleton.
Context `{api : ModApi}.

Lemma Process_eta (s : Process) :
  mkProcess (get_ret s) (interfaces s) (modules s) = s.
Proof. by destruct s. Qed.

Lemma Interface_get_initialised (s : Process) (p : pointer) :
  get_ret s = Some p -> Interface_get s = Some (p, s).
Proof. intros Hret. unfold Interface_get. by rewrite Hret. Qed.

(** ** Interface::get *)

(** C6: the first call of [Interface::get()] constructs the instance, at
    an address where no Interface was, and returns its address, which is
    not null; every later call returns that same address and constructs
    nothing.  No Mod is asked for: the store of Mods is arbitrary, and
    untouched. *)
Theorem Interface_get_constructs_once (s : Process) :
  get_ret s = None ->
  exists a s1,
    Interface_get s = Some (Some a, s1) /\
    interfaces s !! a = None /\
    interfaces s1 = <[a := Interface_new]> (interfaces s) /\
    modules s1 = modules s /\
    forall n, times n Interface_get s1 = Some (replicate n (Some a), s1).
Proof.
  intros Hret.
  exists (fresh (dom (interfaces s))). eexists.
  split; [unfold Interface_get; by rewrite Hret|].
  split; [apply not_elem_of_dom, is_fresh|].
  cbn. split; [done|]. split; [done|].
  induction n as [|n IH]; [done|].
  cbn [times]. unfold bind at 1.
  rewrite (Interface_get_initialised _ (Some (fresh (dom (interfaces s))))) by done.
  unfold bind at 1. by rewrite IH.
Qed.

(** ** The accessors of the attached Mod *)

Lemma on_read {A} (f : Interface -> A) (s : Process) (a : positive) (i : Interface) :
  interfaces s !! a = Some i ->
  on (Some a) (j <- this ;; ret (f j)) s = Some (f i, s).
Proof.
  intros Hi. unfold on, bind, this, ret. rewrite Hi. cbn.
  by rewrite (insert_id _ _ _ Hi), Process_eta.
Qed.

Lemma Mod_get_initialised (s : Process) (a : positive) (i : Interface) :
  get_ret s = Some (Some a) ->
  interfaces s !! a = Some i ->
  Mod_get s = Some (m_mod i, s).
Proof.
  intros Hret Hi. unfold Mod_get, bind at 1.
  rewrite (Interface_get_initialised s (Some a) Hret). by apply on_read.
Qed.

Lemma Interface_log_initialised (s : Process) (a : positive) (i : Interface) :
  get_ret s = Some (Some a) ->
  interfaces s !! a = Some i ->
  Interface_log s =
    match m_mod i with
    | Some m =>
        match modules s !! m with
        | Some obj => Some (Mod_log obj, s)
        | None => None
        end
    | None => None
    end.
Proof.
  intros Hret Hi. unfold Interface_log, bind at 1.
  rewrite (Interface_get_initialised s (Some a) Hret).
  unfold on, bind, this, arrow. rewrite Hi. cbn.
  destruct (m_mod i) as [m|]; [|done].
  destruct (modules s !! m) as [obj|] eqn:Hobj; [|done]. cbn.
  by rewrite (insert_id _ _ _ Hi), (insert_id _ _ _ Hobj), Process_eta.
Qed.

Lemma Log_get_initialised (s : Process) (a : positive) (i : Interface) :
  get_ret s = Some (Some a) ->
  interfaces s !! a = Some i ->
  Log_get s =
    match m_mod i with
    | Some m =>
        match modules s !! m with
        | Some obj => Some (Mod_log obj, s)
        | None => None
        end
    | None => None
    end.
Proof.
  intros Hret Hi. unfold Log_get, bind at 1.
  rewrite (Mod_get_initialised s a i Hret Hi).
  destruct (m_mod i) as [m|]; [|done].
  by destruct (modules s !! m).
Qed.

Lemma accessors_unattached (s : Process) (a : positive) (i : Interface) :
  get_ret s = Some (Some a) ->
  interfaces s !! a = Some i ->
  m_mod i = nullptr ->
  Mod_get s = Some (nullptr, s) /\
  Interface_mod s = Some (nullptr, s) /\
  Interface_log s = None /\
  Log_get s = None.
Proof.
  intros Hret Hi Hnull.
  rewrite (Interface_log_initialised s a i Hret Hi),
    (Log_get_initialised s a i Hret Hi).
  change (Interface_mod s) with (Mod_get s).
  rewrite (Mod_get_initialised s a i Hret Hi), Hnull. done.
Qed.

Lemma perform_on_singleton_unattached (c : Call) (s : Process)
    (a : positive) (i : Interface) :
  get_ret s = Some (Some a) ->
  interfaces s !! a = Some i ->
  m_mod i = nullptr ->
  perform_on_singleton c s =
    Some (tt, mkProcess (Some (Some a)) (<[a := buffered [c] i]> (interfaces s))
                        (modules s)).
Proof.
  intros Hret Hi Hnull. unfold perform_on_singleton, bind at 1.
  rewrite (Interface_get_initialised s (Some a) Hret).
  unfold on. rewrite Hi, perform_unattached by done. cbn. by rewrite Hret.
Qed.

Lemma run_on_singleton_unattached (calls : list Call) (s : Process)
    (a : positive) (i : Interface) :
  get_ret s = Some (Some a) ->
  interfaces s !! a = Some i ->
  m_mod i = nullptr ->
  for_each calls perform_on_singleton s =
    Some (tt, mkProcess (Some (Some a)) (<[a := buffered calls i]> (interfaces s))
                        (modules s)).
Proof.
  revert s i. induction calls as [|c calls IH]; intros s i Hret Hi Hnull.
  - cbn. by rewrite buffered_nil, (insert_id _ _ _ Hi), <- Hret, Process_eta.
  - cbn [for_each]. unfold bind at 1.
    rewrite (perform_on_singleton_unattached c s a i) by done.
    rewrite (IH _ (buffered [c] i)); [|done|apply lookup_insert_eq|done].
    cbn. by rewrite insert_insert_eq, buffered_cons.
Qed.

(** C10: as long as only scheduling calls have been made on the singleton,
    and [init] has not, its Mod pointer is null: [Mod::get<void>()] and
    [Interface::mod()] return [nullptr], and [Interface::log()] and
    [Log::get()], which call [log()] through that pointer, are undefined.
    On a created singleton the two are defined exactly when the Mod
    pointer is not null and points to a live Mod. *)
Theorem accessors_before_init (calls : list Call) (s0 : Process) :
  get_ret s0 = None ->
  (exists s,
     for_each calls perform_on_singleton s0 = Some (tt, s) /\
     (exists s', Mod_get s = Some (nullptr, s')) /\
     (exists s', Interface_mod s = Some (nullptr, s')) /\
     Interface_log s = None /\
     Log_get s = None) /\
  (forall s a i,
     get_ret s = Some (Some a) ->
     interfaces s !! a = Some i ->
     (is_Some (Interface_log s) <->
        exists m, m_mod i = Some m /\ is_Some (modules s !! m)) /\
     (is_Some (Log_get s) <->
        exists m, m_mod i = Some m /\ is_Some (modules s !! m))).
Proof.
  intros Hret0. split.
  - destruct calls as [|c calls].
    + exists s0. split; [done|].
      unfold Interface_log, Log_get, Interface_mod, Mod_get, bind, Interface_get.
      rewrite Hret0. unfold bind, create, initialise_ret, on, this, ret, arrow. cbn.
      rewrite lookup_insert_eq. cbn. repeat split; eauto.
    + pose (a := fresh (dom (interfaces s0))).
      pose (s1 := mkProcess (Some (Some a))
                    (<[a := buffered [c] Interface_new]> (interfaces s0)) (modules s0)).
      assert (Hstep : perform_on_singleton c s0 = Some (tt, s1)).
      { unfold perform_on_singleton, bind at 1, Interface_get. rewrite Hret0.
        unfold bind, create, initialise_ret, ret, on. cbn.
        rewrite lookup_insert_eq, perform_unattached by done. cbn.
        by rewrite insert_insert_eq. }
      eexists. split.
      { cbn [for_each]. unfold bind at 1. rewrite Hstep.
        apply (run_on_singleton_unattached calls s1 a (buffered [c] Interface_new));
          [done|apply lookup_insert_eq|done]. }
      destruct (accessors_unattached
                  (mkProcess (Some (Some a))
                     (<[a := buffered calls (buffered [c] Interface_new)]> (interfaces s1))
                     (modules s1))
                  a (buffered calls (buffered [c] Interface_new)))
        as (H1 & H2 & H3 & H4); [done|apply lookup_insert_eq|done|].
      repeat split; eauto.
  - intros s a i Hret Hi.
    rewrite (Interface_log_initialised s a i Hret Hi),
      (Log_get_initialised s a i Hret Hi).
    destruct (m_mod i) as [m|].
    + destruct (modules s !! m) as [obj|] eqn:Hobj.
      * split; (split; [intros _; exists m; by rewrite Hobj|by eauto]).
      * split; (split; [by intros []|]);
          intros (m' & Hm' & Hsome); simplify_eq; rewrite Hobj in Hsome;
          by destruct Hsome.
    + split; (split; [by intros []|by intros (m' & Hm' & _)]).
Qed.

End Singleton.

(** * Concrete runs on the recording Mod *)

Lemma addHook_unattached_witness :
  m_mod (self unattached_env) = nullptr /\
  exists w',
    addHook (api := recorder) 7%N 0 "a" 256%N unattached_env = Some (Ok nullptr, w') /\
    m_scheduledHooks (self w') =
      m_scheduledHooks (self unattached_env) ++
        [mkScheduledHook "a" 256%N (Mod_addHook_ptr (api := recorder) 7%N 0)] /\
    m_scheduledLogs (self w') = m_scheduledLogs (self unattached_env) /\
    m_scheduledExports (self w') = m_scheduledExports (self unattached_env) /\
    m_scheduledFunctions (self w') = m_scheduledFunctions (self unattached_env) /\
    m_mod (self w') = nullptr /\
    mods w' = mods unattached_env.
Proof.
  split; [reflexivity|].
  apply (addHook_unattached (api := recorder)). reflexivity.
Defined.

Lemma addHook_attached_witness :
  m_mod (self attached_env) = Some 1%positive /\
  mods attached_env !! 1%positive = Some [] /\
  exists w',
    addHook (api := recorder) 7%N 0 "a" 256%N attached_env =
      Some (Ok (Some 1%positive), w') /\
    mods w' = {[ 1%positive := [saw_addHook 7%N 0 "a" 256%N] ]} /\
    self w' = self attached_env.
Proof.
  split; [reflexivity|]. split; [reflexivity|].
  destruct (addHook_attached (api := recorder) 7%N 0 "a" 256%N attached_env
              1%positive [] eq_refl eq_refl) as (w' & Hcall & Hmods & Hself & _).
  exists w'. split; [exact Hcall|]. split; [|exact Hself].
  rewrite Hmods. reflexivity.
Defined.

Lemma init_replays_in_order_witness :
  one_mod !! 1%positive = Some [] /\
  exists w,
    for_each boot_calls perform (mkEnv (api := recorder) Interface_new one_mod)
      = Some (tt, w) /\
    init (Some 1%positive) w =
      Some (tt,
            mkEnv (api := recorder) (mkInterface (Some 1%positive) [] [] [] [])
                  {[ 1%positive :=
                       [ saw_addHook 1%N 0 "a" 256%N;
                         saw_addHook 2%N 0 "b" 512%N;
                         saw_logInfo "boot" 1;
                         saw_export_fn "getVersion" (unknownfn 64);
                         saw_loadfn (loadfn 9) ] ]}).
Proof.
  split; [reflexivity|].
  destruct (init_replays_in_order (api := recorder) boot_calls one_mod
              1%positive [] eq_refl) as (w & Hrun & _ & Hinit & _).
  exists w. split; [exact Hrun|]. rewrite Hinit. reflexivity.
Defined.

Lemma exportAPIFunction_dispatch_witness :
  exportAPIFunction (api := recorder) "getVersion" (member_function_pointer 64)
    unattached_env =
    Some (tt,
          mkEnv (mkInterface nullptr [] []
                   [mkScheduledExport "getVersion" (inl (unknownmemfn 64))] [])
                ∅) /\
  exportAPIFunction (api := recorder) "getVersion" (function_pointer 64)
    attached_env =
    Some (tt,
          mkEnv (self attached_env)
                {[ 1%positive := [saw_export_fn "getVersion" (unknownfn 64)] ]}).
Proof.
  split.
  - apply (proj1 (exportAPIFunction_dispatch (api := recorder) "getVersion"
                    (member_function_pointer 64) unattached_env)).
    reflexivity.
  - apply (proj2 (exportAPIFunction_dispatch (api := recorder) "getVersion"
                    (function_pointer 64) attached_env) 1%positive []).
    + reflexivity.
    + reflexivity.
Defined.

Lemma scheduling_cannot_fail_witness :
  (exists w',
     addHook (api := recorder) 7%N 0 "a" 256%N unattached_env = Some (Ok nullptr, w') /\
     mods w' = mods unattached_env) /\
  (exists w', logInfo (api := recorder) "boot" 1 attached_env = Some (tt, w')).
Proof.
  split.
  - apply (scheduling_cannot_fail (api := recorder) unattached_env).
    + intros a Ha. discriminate Ha.
    + reflexivity.
  - apply (scheduling_cannot_fail (api := recorder) attached_env).
    intros a Ha. injection Ha as <-. exists []. reflexivity.
Defined.

Lemma buffers_append_only_then_cleared_witness :
  one_mod !! 1%positive = Some [] /\
  exists w,
    (for_each boot_calls perform ;; init (Some 1%positive) ;;
     for_each boot_calls perform)
      (mkEnv (api := recorder) Interface_new one_mod) = Some (tt, w) /\
    self w = mkInterface (Some 1%positive) [] [] [] [].
Proof.
  split; [reflexivity|].
  destruct (buffers_append_only_then_cleared (api := recorder) [] boot_calls
              boot_calls one_mod 1%positive [] eq_refl)
    as (w1 & w2 & w3 & w4 & H1 & H2 & _ & _ & _ & _ & H3 & _ & H4 & H5 & _).
  exists w4. split; [|exact H5].
  injection H1 as <-. unfold bind. rewrite H2, H3. exact H4.
Defined.


Lemma Interface_get_constructs_once_witness :
  get_ret boot_process = None /\
  exists a s1,
    Interface_get boot_process = Some (Some a, s1) /\
    times 3 Interface_get s1 = Some ([Some a; Some a; Some a], s1).
Proof.
  split; [reflexivity|].
  destruct (Interface_get_constructs_once (api := recorder) boot_process eq_refl)
    as (a & s1 & Hget & _ & _ & _ & Hn).
  exists a, s1. split; [exact Hget|exact (Hn 3)].
Defined.

Lemma accessors_before_init_witness :
  get_ret boot_process = None /\
  (exists s,
     for_each boot_calls perform_on_singleton boot_process = Some (tt, s) /\
     Interface_log s = None /\ Log_get s = None) /\
  is_Some (Interface_log attached_process).
Proof.
  split; [reflexivity|].
  destruct (accessors_before_init (api := recorder) boot_calls boot_process eq_refl)
    as [(s & Hrun & _ & _ & Hlog & Hget) Hpre].
  split; [exists s; auto|].
  apply (Hpre attached_process 1%positive (set_mod (Some 1%positive) Interface_new));
    [reflexivity|reflexivity|].
  exists 1%positive. split; [reflexivity|]. exists []. reflexivity.
Defined.

(** * Further properties of the header *)

Section MoreScheduling.
Context `{api : ModApi}.

(** X1: while no Mod is attached, any number of [addHook] calls hand every
    caller the same placeholder, a successful Result with a null Hook
    pointer, whatever was asked for, and buffer the entries in the order
    of the calls; nothing else changes. *)
Theorem addHooks_unattached (rs : list HookRequest) (w : Env) :
  m_mod (self w) = nullptr ->
  addHooks rs w =
    Some (replicate (length rs) (Ok nullptr),
          mkEnv (mkInterface nullptr
                             (m_scheduledHooks (self w) ++ (entry_of <$> rs))
                             (m_scheduledLogs (self w))
                             (m_scheduledExports (self w))
                             (m_scheduledFunctions (self w)))
                (mods w)).
Proof.
  revert w. induction rs as [|r rs IH]; intros w Hnull.
  - cbn. destruct w as [[m hs ls es fs] store]. cbn in *. subst m.
    by rewrite app_nil_r.
  - cbn [addHooks]. unfold bind at 1. rewrite addHook_null by done.
    unfold bind at 1. rewrite IH by done. cbn.
    by rewrite <- app_assoc.
Qed.

(** X2: while a live Mod is attached the facade is transparent for
    [addHook]: the callers of a series of calls are handed what the Mod
    answers to the same calls made on it directly, the Mod ends in the
    state those calls leave, and the Interface is unchanged. *)
Theorem addHooks_attached (rs : list HookRequest) (w : Env)
    (a : positive) (obj : Mod) :
  m_mod (self w) = Some a ->
  mods w !! a = Some obj ->
  addHooks rs w =
    Some (fst (Mod_addHooks rs obj),
          mkEnv (self w) (<[a := snd (Mod_addHooks rs obj)]> (mods w))).
Proof.
  revert w obj. induction rs as [|r rs IH]; intros w obj Hmod Hobj.
  - cbn. rewrite insert_id by done. by destruct w.
  - cbn [addHooks Mod_addHooks]. unfold bind at 1.
    rewrite (addHook_live _ _ _ _ w a obj) by done.
    destruct (Mod_addHook _ _ _ _ obj) as [x obj'] eqn:Hx. cbn [fst snd].
    unfold bind at 1.
    rewrite (IH _ obj'); [|done|apply lookup_insert_eq].
    destruct (Mod_addHooks rs obj') as [xs obj'']. cbn.
    by rewrite insert_insert_eq.
Qed.

(** X3: [addHook] is defined exactly when the Mod pointer is null or
    points to a live Mod; on a dangling pointer it is undefined. *)
Theorem addHook_defined_iff (d : Detour) (c : Convention)
    (displayName : string) (address : N) (w : Env) :
  is_Some (addHook d c displayName address w) <->
  m_mod (self w) = nullptr \/
  exists a, m_mod (self w) = Some a /\ is_Some (mods w !! a).
Proof.
  destruct (m_mod (self w)) as [a|] eqn:Hmod.
  - destruct (mods w !! a) as [obj|] eqn:Hobj.
    + rewrite (addHook_live d c displayName address w a obj Hmod Hobj).
      split; [|by eauto]. intros _. right. exists a. by rewrite Hobj.
    + unfold addHook, bind, this, arrow. rewrite Hmod, Hobj.
      split; [by intros []|].
      intros [|(a' & Ha' & Hsome)]; [done|]. simplify_eq.
      rewrite Hobj in Hsome. by destruct Hsome.
  - rewrite (addHook_null d c displayName address w Hmod).
    split; [by left|by eauto].
Qed.

End MoreScheduling.

Lemma addHooks_unattached_witness :
  addHooks two_requests unattached_env =
    Some ([Ok nullptr; Ok nullptr],
          mkEnv (api := recorder)
                (mkInterface nullptr
                   [mkScheduledHook "a" 256%N (Mod_addHook_ptr (api := recorder) 1%N 0);
                    mkScheduledHook "b" 0%N (Mod_addHook_ptr (api := recorder) 2%N 0)]
                   [] [] [])
                ∅).
Proof.
  apply (addHooks_unattached (api := recorder) two_requests unattached_env).
  reflexivity.
Defined.

Lemma addHooks_attached_witness :
  addHooks two_requests attached_env =
    Some ([Ok (Some 1%positive); Err "unhookable address"],
          mkEnv (api := recorder) (self attached_env)
                {[ 1%positive :=
                     [saw_addHook 1%N 0 "a" 256%N; saw_addHook 2%N 0 "b" 0%N] ]}).
Proof.
  apply (addHooks_attached (api := recorder) two_requests attached_env 1%positive []).
  - reflexivity.
  - reflexivity.
Defined.

Section MoreSingleton.
Context `{api : ModApi}.

(** X4: the deprecated [Interface::log()] and [Log::get()] agree in every
    state of the process: both are undefined in the same states and
    return the same Log and leave the same state otherwise. *)
Theorem Interface_log_is_Log_get (s : Process) :
  Interface_log s = Log_get s.
Proof.
  destruct (get_ret s) as [[a|]|] eqn:Hret.
  - destruct (interfaces s !! a) as [i|] eqn:Hi.
    + by rewrite (Interface_log_initialised s a i Hret Hi),
        (Log_get_initialised s a i Hret Hi).
    + unfold Interface_log, Log_get, Mod_get, bind.
      rewrite (Interface_get_initialised s (Some a) Hret).
      unfold on. by rewrite Hi.
  - unfold Interface_log, Log_get, Mod_get, bind.
    by rewrite (Interface_get_initialised s None Hret).
  - unfold Interface_log, Log_get, Mod_get, bind, Interface_get.
    rewrite Hret. unfold bind, create, initialise_ret, ret, on, this, arrow. cbn.
    by rewrite lookup_insert_eq.
Qed.

(** X5: whatever member function is called through [Interface::get()],
    if the call returns then the singleton exists, a later
    [Interface::get()] returns the very object the call ran on and changes
    nothing, and the call has constructed at most one Interface: none when
    [get] had run before, one at a fresh address otherwise. *)
Theorem through_singleton_keeps_singleton {A} (member : St Env A)
    (s s1 : Process) (r : A) :
  through_singleton member s = Some (r, s1) ->
  exists a,
    Interface_get s1 = Some (Some a, s1) /\
    (forall q, get_ret s = Some q ->
       q = Some a /\ dom (interfaces s1) = dom (interfaces s)) /\
    (get_ret s = None ->
       (a ∉ dom (interfaces s)) /\
       dom (interfaces s1) = {[a]} ∪ dom (interfaces s)).
Proof.
  unfold through_singleton, bind. intros Hcall.
  destruct (get_ret s) as [q|] eqn:Hret.
  - rewrite (Interface_get_initialised s q Hret) in Hcall.
    unfold on in Hcall. destruct q as [a|]; [|done].
    destruct (interfaces s !! a) as [i|] eqn:Hi; [|done].
    destruct (member _) as [[r' w]|]; [|done]. simplify_eq.
    exists a. split; [by apply Interface_get_initialised|]. split; [|done].
    intros q Hq. simplify_eq. split; [done|]. cbn.
    rewrite dom_insert_L. apply subseteq_union_1_L, singleton_subseteq_l.
    by apply elem_of_dom_2 in Hi.
  - unfold Interface_get in Hcall. rewrite Hret in Hcall.
    unfold bind, create, initialise_ret, ret, on in Hcall. cbn in Hcall.
    rewrite lookup_insert_eq in Hcall.
    destruct (member _) as [[r' w]|]; [|done]. simplify_eq.
    exists (fresh (dom (interfaces s))).
    split; [by apply Interface_get_initialised|]. split; [done|].
    intros _. split; [apply is_fresh|]. cbn.
    rewrite insert_insert_eq, dom_insert_L. done.
Qed.

End MoreSingleton.

Section GlueProperties.
Context `{api : ModApi} {glue : GlueApi}.

(** X6: the literal operator [_spr] dereferences the Mod pointer of the
    singleton.  Before [Interface::get] has run, and while no Mod is
    attached, it is undefined; attached to a live Mod it returns what the
    Mod's [expandSpriteName] returns and changes that Mod only; attached
    to a Mod that is gone it is undefined. *)
Theorem operator_spr_needs_attached_mod (str : string) (s : Process) :
  (get_ret s = None -> operator_spr str s = None) /\
  (forall a i,
     get_ret s = Some (Some a) ->
     interfaces s !! a = Some i ->
     operator_spr str s =
       match m_mod i with
       | Some m =>
           match modules s !! m with
           | Some obj =>
               Some (fst (Mod_expandSpriteName str obj),
                     mkProcess (get_ret s) (interfaces s)
                               (<[m := snd (Mod_expandSpriteName str obj)]> (modules s)))
           | None => None
           end
       | None => None
       end).
Proof.
  split.
  - intros Hret. unfold operator_spr, Mod_get, bind, Interface_get.
    rewrite Hret. unfold bind, create, initialise_ret, ret, on, this. cbn.
    by rewrite lookup_insert_eq.
  - intros a i Hret Hi. unfold operator_spr, bind at 1.
    rewrite (Mod_get_initialised s a i Hret Hi).
    unfold Mod_arrow. destruct (m_mod i) as [m|]; [|done].
    destruct (modules s !! m) as [obj|]; [|done].
    by destruct (Mod_expandSpriteName str obj).
Qed.

(** X7: neither overload of [registerObserver] dereferences the Mod
    pointer: the owner handed to the EventCenter is the Mod pointer of the
    singleton as it is, so an observer registered before a Mod is attached
    is registered for the null Mod, and the call is defined even then.
    Apart from creating the singleton on first use the process is left
    unchanged. *)
Theorem registerObserver_owner (sel : string) (info : EventInfo) (cb : Callback)
    (s : Process) (ec : EventCenter) :
  (get_ret s = None ->
   exists s',
     get_ret s' = Some (Some (fresh (dom (interfaces s)))) /\
     registerObserver_selector sel cb (s, ec) =
       Some (fst (registerObserver_for nullptr (EventInfo_of_selector sel) cb ec),
             (s', snd (registerObserver_for nullptr (EventInfo_of_selector sel) cb ec))) /\
     registerObserver_info info cb (s, ec) =
       Some (fst (registerObserver_for nullptr info cb ec),
             (s', snd (registerObserver_for nullptr info cb ec)))) /\
  (forall a i,
     get_ret s = Some (Some a) ->
     interfaces s !! a = Some i ->
     registerObserver_selector sel cb (s, ec) =
       Some (fst (registerObserver_for (m_mod i) (EventInfo_of_selector sel) cb ec),
             (s, snd (registerObserver_for (m_mod i) (EventInfo_of_selector sel) cb ec))) /\
     registerObserver_info info cb (s, ec) =
       Some (fst (registerObserver_for (m_mod i) info cb ec),
             (s, snd (registerObserver_for (m_mod i) info cb ec)))).
Proof.
  split.
  - intros Hret. eexists. split; [|split].
    2:{ unfold registerObserver_selector, with_Mod_get, Mod_get, bind, Interface_get.
        rewrite Hret. unfold bind, create, initialise_ret, ret, on, this. cbn.
        rewrite lookup_insert_eq. cbn.
        by destruct (registerObserver_for _ _ _ _). }
    + done.
    + unfold registerObserver_info, with_Mod_get, Mod_get, bind, Interface_get.
      rewrite Hret. unfold bind, create, initialise_ret, ret, on, this. cbn.
      rewrite lookup_insert_eq. cbn.
      by destruct (registerObserver_for _ _ _ _).
  - intros a i Hret Hi.
    unfold registerObserver_selector, registerObserver_info, with_Mod_get.
    rewrite (Mod_get_initialised s a i Hret Hi).
    split; by destruct (registerObserver_for _ _ _ _).
Qed.

End GlueProperties.

Lemma through_singleton_keeps_singleton_witness :
  exists s1 a,
    through_singleton (addHook (api := recorder) 1%N 0 "a" 256%N) attached_process
      = Some (Ok (Some 1%positive), s1) /\
    Interface_get s1 = Some (Some a, s1) /\
    dom (interfaces s1) = dom (interfaces attached_process).
Proof.
  eexists.
  destruct (through_singleton_keeps_singleton (api := recorder)
              (addHook (api := recorder) 1%N 0 "a" 256%N) attached_process
              _ _ eq_refl) as (a & Hget & Hold & _).
  exists a. split; [reflexivity|]. split; [exact Hget|].
  exact (proj2 (Hold _ eq_refl)).
Defined.

Lemma operator_spr_needs_attached_mod_witness :
  operator_spr (glue := recorder_glue) "icon.png" boot_process = None /\
  operator_spr (glue := recorder_glue) "icon.png" attached_process =
    Some ("geode.test/icon.png", attached_process) /\
  operator_spr (glue := recorder_glue) "icon.png" dangling_process = None.
Proof.
  split; [|split].
  - apply (operator_spr_needs_attached_mod (glue := recorder_glue)). reflexivity.
  - rewrite (proj2 (operator_spr_needs_attached_mod (glue := recorder_glue)
                      "icon.png" attached_process)
               1%positive (set_mod (Some 1%positive) Interface_new)
               eq_refl eq_refl).
    reflexivity.
  - rewrite (proj2 (operator_spr_needs_attached_mod (glue := recorder_glue)
                      "icon.png" dangling_process)
               1%positive (set_mod (Some 7%positive) Interface_new)
               eq_refl eq_refl).
    reflexivity.
Defined.

Lemma registerObserver_owner_witness :
  (exists s',
     registerObserver_selector (glue := recorder_glue) "download" 0 (boot_process, [])
       = Some (Some 1%positive, (s', [(nullptr, "download")]))) /\
  registerObserver_info (glue := recorder_glue) "download" 0 (attached_process, [])
    = Some (Some 1%positive, (attached_process, [(Some 1%positive, "download")])).
Proof.
  split.
  - destruct (proj1 (registerObserver_owner (glue := recorder_glue)
                       "download" "download" 0 boot_process []) eq_refl)
      as (s' & _ & Hsel & _).
    exists s'. exact Hsel.
  - exact (proj2 (proj2 (registerObserver_owner (glue := recorder_glue)
                           "download" "download" 0 attached_process [])
                    1%positive (set_mod (Some 1%positive) Interface_new)
                    eq_refl eq_refl)).
Defined.

(** * Properties of the hook on the loading screen *)

Section LoadingLayerProperties.
Context `{fl : FloatApi}.

(** Counting the calls of one kind among the effects of a few steps. *)
Ltac count_effects :=
  unfold assets_loaded, message_boxes, loadAssets, setUpdateText,
    set_updatingResources, emit;
  cbn;
  repeat (match goal with
          | |- context [if ?b then _ else _] => destruct b
          end; cbn);
  rewrite ?List.filter_app, ?length_app; cbn; try done; try lia.

Lemma assets_loaded_emit (e : Effect) (l : CustomLoadingLayer) :
  assets_loaded (emit e l) =
    assets_loaded l + (if is_LoadingLayer_loadAssets e then 1 else 0).
Proof.
  unfold assets_loaded, emit. cbn.
  rewrite List.filter_app, length_app. cbn.
  destruct (is_LoadingLayer_loadAssets e); cbn; lia.
Qed.

Lemma message_boxes_emit (e : Effect) (l : CustomLoadingLayer) :
  message_boxes (emit e l) =
    message_boxes l + (if is_platformMessageBox e then 1 else 0).
Proof.
  unfold message_boxes, emit. cbn.
  rewrite List.filter_app, length_app. cbn.
  destruct (is_platformMessageBox e); cbn; lia.
Qed.

Lemma shown_text_emit (e : Effect) (l : CustomLoadingLayer) :
  shown_text (emit e l) =
    match e with
    | m_textArea_setString text => Some text
    | _ => shown_text l
    end.
Proof.
  unfold shown_text, emit. cbn. rewrite omap_app.
  destruct e; cbn; rewrite ?app_nil_r; try done. apply last_snoc.
Qed.

(** None of the texts the hook sets has a NUL in it, so [c_str] hands
    them over whole. *)
Lemma c_str_app (s1 s2 : string) :
  c_str s1 = s1 -> c_str s2 = s2 -> c_str (s1 +:+ s2) = s1 +:+ s2.
Proof.
  intros H1 H2. induction s1 as [|c s1 IH]; [done|].
  change (c_str (String c (s1 +:+ s2)) = String c (s1 +:+ s2)).
  cbn [c_str] in *. destruct (Ascii.eqb c Ascii.zero); [discriminate H1|].
  injection H1 as H1. by rewrite IH.
Qed.

Lemma pretty_N_char_not_zero (x : N) : Ascii.eqb (pretty_N_char x) Ascii.zero = false.
Proof. unfold pretty_N_char. by repeat case_match. Qed.

Lemma c_str_pretty_N_go (x : N) (s : string) :
  c_str s = s -> c_str (pretty_N_go x s) = pretty_N_go x s.
Proof.
  revert s. induction (N.lt_wf_0 x) as [x _ IH]; intros s Hs.
  destruct (decide (0 < x)%N) as [Hpos|Hzero].
  - rewrite pretty_N_go_step by done.
    apply IH; [by apply N.div_lt|]. cbn.
    by rewrite pretty_N_char_not_zero, Hs.
  - assert (x = 0%N) as -> by lia. by rewrite pretty_N_go_0.
Qed.

Lemma c_str_pretty (x : N) : c_str (pretty x) = pretty x.
Proof.
  unfold pretty, pretty_N. destruct (decide (x = 0%N)); [done|].
  by apply c_str_pretty_N_go.
Qed.

Lemma c_str_status_text (status : UpdateStatus) :
  c_str (status_text status) = status_text status.
Proof.
  destruct status as [first second| |error]; cbn [status_text]; [|done..].
  apply c_str_app; [done|]. apply c_str_app; [apply c_str_pretty|done].
Qed.

Lemma run_snoc (acts : list Action) (a : Action) (l : CustomLoadingLayer) :
  run (acts ++ [a]) l = step (run acts l) a.
Proof. unfold run. by rewrite foldl_app. Qed.

Lemma run_app (acts1 acts2 : list Action) (l : CustomLoadingLayer) :
  run (acts1 ++ acts2) l = run acts2 (run acts1 l).
Proof. unfold run. by rewrite foldl_app. Qed.

(** One action on a layer that is not updating resources. *)
Lemma step_open (l : CustomLoadingLayer) (a : Action) :
  m_updatingResources l = false ->
  m_updatingResources (step l a) = false /\
  assets_loaded (step l a) =
    assets_loaded l + (if asks_for_assets a then 1 else 0).
Proof.
  intros Hopen. destruct l as [b es]. cbn in Hopen. subst b.
  destruct a as [|[first second| |error]]; cbn; split; count_effects.
Qed.

(** One action that cannot release the assets, on a layer that is
    updating resources. *)
Lemma step_held (l : CustomLoadingLayer) (a : Action) :
  m_updatingResources l = true ->
  holds_back a = true ->
  m_updatingResources (step l a) = true /\
  assets_loaded (step l a) = assets_loaded l /\
  message_boxes (step l a) = message_boxes l.
Proof.
  intros Hheld Ha. destruct l as [b es]. cbn in Hheld. subst b.
  destruct a as [|[first second| |error]]; try discriminate; cbn;
    repeat split; count_effects.
Qed.

Lemma run_open (acts : list Action) (l : CustomLoadingLayer) :
  m_updatingResources l = false ->
  m_updatingResources (run acts l) = false /\
  assets_loaded (run acts l) =
    assets_loaded l + length (List.filter asks_for_assets acts).
Proof.
  revert l. induction acts as [|a acts IH]; intros l Hopen.
  - cbn. split; [done|lia].
  - destruct (step_open l a Hopen) as [Hopen' Hcount].
    destruct (IH (step l a) Hopen') as [Hflag Hloaded].
    change (run (a :: acts) l) with (run acts (step l a)).
    split; [done|]. rewrite Hloaded, Hcount. cbn.
    destruct (asks_for_assets a); cbn; lia.
Qed.

Lemma run_held (acts : list Action) (l : CustomLoadingLayer) :
  m_updatingResources l = true ->
  forallb holds_back acts = true ->
  m_updatingResources (run acts l) = true /\
  assets_loaded (run acts l) = assets_loaded l /\
  message_boxes (run acts l) = message_boxes l.
Proof.
  revert l. induction acts as [|a acts IH]; intros l Hheld Hacts.
  - done.
  - cbn in Hacts. apply andb_prop in Hacts as [Ha Hacts].
    destruct (step_held l a Hheld Ha) as (Hheld' & Hloaded & Hboxes).
    destruct (IH (step l a) Hheld' Hacts) as (H1 & H2 & H3).
    change (run (a :: acts) l) with (run acts (step l a)).
    repeat split; congruence.
Qed.

(** X8: [init] returns what the original [LoadingLayer::init] returned.
    When that is false, the hook has waited for the mods and called the
    original, and nothing more: no label and no listener are added, the
    resources are not verified, no text is set and the field is as it
    was. *)
Theorem init_returns_original_result (answers : Answers) (fromReload : bool)
    (l : CustomLoadingLayer) :
  fst (CustomLoadingLayer_init answers fromReload l) =
    LoadingLayer_init_result answers /\
  (LoadingLayer_init_result answers = false ->
   snd (CustomLoadingLayer_init answers fromReload l) =
     mkLayer (m_updatingResources l)
             (effects l ++ [Loader_waitForModsToBeLoaded;
                            LoadingLayer_init fromReload])).
Proof.
  unfold CustomLoadingLayer_init.
  destruct (LoadingLayer_init_result answers) eqn:Hinit; cbn.
  - split; [|done]. by destruct (verifyLoaderResources_result answers).
  - split; [done|]. intros _. unfold emit. cbn. by rewrite <- app_assoc.
Qed.

(** X9: when the original [init] succeeds, the hook never loads assets or
    opens a message box itself; it starts updating resources exactly when
    the verification fails (a field that was set is never reset), and
    then, and only then, it puts "Downloading Resources" in the text
    area. *)
Theorem init_starts_update_when_unverified (answers : Answers)
    (fromReload : bool) (l : CustomLoadingLayer) :
  LoadingLayer_init_result answers = true ->
  let l' := snd (CustomLoadingLayer_init answers fromReload l) in
  assets_loaded l' = assets_loaded l /\
  message_boxes l' = message_boxes l /\
  m_updatingResources l' =
    m_updatingResources l || negb (verifyLoaderResources_result answers) /\
  shown_text l' =
    if verifyLoaderResources_result answers then shown_text l
    else Some "Downloading Resources".
Proof.
  intros Hinit. unfold CustomLoadingLayer_init. rewrite Hinit. cbn.
  destruct (verifyLoaderResources_result answers); cbn.
  - rewrite orb_false_r. repeat split; [count_effects..|].
    by rewrite !shown_text_emit.
  - rewrite orb_true_r. repeat split; [count_effects..|].
    unfold setUpdateText. by rewrite shown_text_emit.
Qed.

(** X10: while the layer is updating resources, requests of the game to
    load the assets and progress events never reach the original
    [LoadingLayer::loadAssets]: however many arrive, in whatever order,
    the layer is still updating, no asset load has run and no message box
    was opened. *)
Theorem assets_held_back_while_updating (acts : list Action)
    (l : CustomLoadingLayer) :
  m_updatingResources l = true ->
  forallb holds_back acts = true ->
  m_updatingResources (run acts l) = true /\
  assets_loaded (run acts l) = assets_loaded l /\
  message_boxes (run acts l) = message_boxes l.
Proof. apply run_held. Qed.

(** X11: once the layer is not updating resources it never is again,
    whatever requests and events follow, and every request of the game
    and every end of a download runs the original [loadAssets] exactly
    once; progress events run none. *)
Theorem assets_flow_when_not_updating (acts : list Action)
    (l : CustomLoadingLayer) :
  m_updatingResources l = false ->
  m_updatingResources (run acts l) = false /\
  assets_loaded (run acts l) =
    assets_loaded l + length (List.filter asks_for_assets acts).
Proof. apply run_open. Qed.

(** X12: a whole download.  On a new layer whose [init] succeeds and finds
    the resources missing, whatever requests and progress events arrive
    before the end of the download load nothing; the event that ends it,
    finished or failed, loads the assets once; and from then on every
    request goes through. *)
Theorem assets_load_after_download (answers : Answers) (fromReload : bool)
    (held more : list Action) (final : UpdateStatus) :
  LoadingLayer_init_result answers = true ->
  verifyLoaderResources_result answers = false ->
  forallb holds_back held = true ->
  ends_download final = true ->
  let l0 := snd (CustomLoadingLayer_init answers fromReload CustomLoadingLayer_new) in
  assets_loaded (run held l0) = 0 /\
  assets_loaded (run (held ++ [download_event final]) l0) = 1 /\
  assets_loaded (run (held ++ download_event final :: more) l0) =
    1 + length (List.filter asks_for_assets more) /\
  m_updatingResources (run (held ++ download_event final :: more) l0) = false.
Proof.
  intros Hinit Hverify Hheld Hfinal l0.
  assert (Hl0 : m_updatingResources l0 = true /\ assets_loaded l0 = 0).
  { subst l0. unfold CustomLoadingLayer_init. rewrite Hinit, Hverify. done. }
  destruct Hl0 as [Hflag0 Hloaded0].
  destruct (run_held held l0 Hflag0 Hheld) as (Hflag1 & Hloaded1 & _).
  assert (Hend : m_updatingResources (step (run held l0) (download_event final)) = false /\
                 assets_loaded (step (run held l0) (download_event final)) = 1).
  { rewrite Hloaded0 in Hloaded1. revert Hloaded1.
    destruct (run held l0) as [b es]. unfold assets_loaded at 1. cbn. intros Hes.
    destruct final as [first second| |error]; try discriminate; cbn;
      (split; [done|]); count_effects. }
  destruct Hend as [Hflag2 Hloaded2].
  split; [congruence|]. rewrite run_snoc. split; [done|].
  change (held ++ download_event final :: more)
    with (held ++ [download_event final] ++ more).
  rewrite app_assoc, run_app, run_snoc.
  destruct (run_open more _ Hflag2) as [Hflag3 Hloaded3].
  split; [|done]. rewrite Hloaded3, Hloaded2. lia.
Qed.

(** X13: a message box is opened for each failed download and for nothing
    else: after any requests and events their number has grown by the
    number of failure events. *)
Theorem message_box_per_failure (acts : list Action) (l : CustomLoadingLayer) :
  message_boxes (run acts l) =
    message_boxes l + length (List.filter is_failure acts).
Proof.
  revert l. induction acts as [|a acts IH]; intros l.
  - cbn. lia.
  - change (run (a :: acts) l) with (run acts (step l a)). rewrite IH.
    assert (Hstep : message_boxes (step l a) =
                    message_boxes l + (if is_failure a then 1 else 0)).
    { destruct a as [|[first second| |error]]; cbn; count_effects. }
    rewrite Hstep. cbn. destruct (is_failure a); cbn; lia.
Qed.

(** X14: the text area shows the text of the latest download event,
    whatever requests of the game came with or after it; without any
    event it shows what it showed. *)
Theorem text_of_latest_event (acts : list Action) (l : CustomLoadingLayer) :
  shown_text (run acts l) =
    match last (omap event_of acts) with
    | Some status => Some (status_text status)
    | None => shown_text l
    end.
Proof.
  induction acts as [|a acts IH] using rev_ind; [done|].
  rewrite run_snoc, omap_app.
  destruct a as [|status]; cbn.
  - rewrite app_nil_r, <- IH. unfold loadAssets.
    destruct (m_updatingResources (run acts l)); [done|].
    by rewrite shown_text_emit.
  - rewrite last_snoc, <- c_str_status_text.
    destruct status as [first second| |error]; cbn [updateResourcesProgress];
      unfold loadAssets, setUpdateText; cbn [m_updatingResources set_updatingResources];
      rewrite ?shown_text_emit;
      change (shown_text (set_updatingResources false ?x)) with (shown_text x);
      by rewrite ?shown_text_emit.
Qed.

End LoadingLayerProperties.

Lemma init_returns_original_result_witness :
  CustomLoadingLayer_init init_refused true CustomLoadingLayer_new =
    (false,
     mkLayer (fl := test_floats) false
             [Loader_waitForModsToBeLoaded; LoadingLayer_init true]).
Proof.
  destruct (init_returns_original_result (fl := test_floats) init_refused true
              CustomLoadingLayer_new) as [Hfst Hsnd].
  specialize (Hsnd eq_refl).
  destruct (CustomLoadingLayer_init init_refused true CustomLoadingLayer_new)
    as [b l]. cbn in Hfst, Hsnd. rewrite Hfst, Hsnd. reflexivity.
Defined.

Lemma init_starts_update_when_unverified_witness :
  LoadingLayer_init_result resources_missing = true /\
  m_updatingResources waiting_layer = true /\
  assets_loaded waiting_layer = 0 /\
  shown_text waiting_layer = Some "Downloading Resources".
Proof.
  split; [reflexivity|].
  destruct (init_starts_update_when_unverified (fl := test_floats)
              resources_missing false CustomLoadingLayer_new eq_refl)
    as (Hloaded & _ & Hflag & Htext).
  split; [exact Hflag|]. split; [exact Hloaded|exact Htext].
Defined.

Lemma assets_held_back_while_updating_witness :
  m_updatingResources waiting_layer = true /\
  forallb holds_back impatient_actions = true /\
  m_updatingResources (run impatient_actions waiting_layer) = true /\
  assets_loaded (run impatient_actions waiting_layer) = 0.
Proof.
  split; [reflexivity|]. split; [reflexivity|].
  destruct (assets_held_back_while_updating (fl := test_floats)
              impatient_actions waiting_layer eq_refl eq_refl)
    as (Hflag & Hloaded & _).
  split; [exact Hflag|exact Hloaded].
Defined.

Lemma assets_flow_when_not_updating_witness :
  m_updatingResources (CustomLoadingLayer_new (fl := test_floats)) = false /\
  m_updatingResources (run later_actions (CustomLoadingLayer_new (fl := test_floats)))
    = false /\
  assets_loaded (run later_actions (CustomLoadingLayer_new (fl := test_floats))) = 2.
Proof.
  split; [reflexivity|].
  exact (assets_flow_when_not_updating (fl := test_floats) later_actions
           CustomLoadingLayer_new eq_refl).
Defined.

Lemma assets_load_after_download_witness :
  LoadingLayer_init_result resources_missing = true /\
  verifyLoaderResources_result resources_missing = false /\
  forallb holds_back impatient_actions = true /\
  ends_download (UpdateFailed "timeout") = true /\
  assets_loaded (run impatient_actions waiting_layer) = 0 /\
  assets_loaded
    (run (impatient_actions ++ download_event (UpdateFailed "timeout") :: later_actions)
         waiting_layer) = 3.
Proof.
  do 4 (split; [reflexivity|]).
  destruct (assets_load_after_download (fl := test_floats) resources_missing false
              impatient_actions later_actions (UpdateFailed "timeout")
              eq_refl eq_refl eq_refl eq_refl) as (H0 & _ & Hall & _).
  split; [exact H0|exact Hall].
Defined.
